(** * UniConnect+ real-time layer: [src/socket/socketHandler.js]

    A shallow embedding of the Socket.io handler of the UniConnect+ backend:
    the handshake authentication middleware, the [connectedUsers] registry,
    room membership, the per-socket event handlers and the utility functions
    exported to the REST layer.

    Modelling conventions.
    - The JavaScript [Map] [connectedUsers] is a [gmap string ConnRecord]; the
      namespace's socket table is a [gmap SocketId Socket].
    - Handlers are state-passing functions [Server -> Server * list Effect];
      the effects are the packets written to client sockets and the
      fire-and-forget [User.findByIdAndUpdate] calls, in program order.
      [console.log] is not modelled.
    - [new Date()] is the argument [now] of a handler (one reading per
      handler invocation).
    - A connection id is a value drawn by the transport. Socket.io puts every
      socket in the room named by its id, and that room is an ordinary room:
      a client that passes a connection's id to [join_room] or [leave_room]
      joins or leaves it. A room name is therefore either a connection id
      ([Own]) or any other string ([Named]).
    - An event payload is any JSON value. The handlers are written over the
      mapping of the payload's own properties, where a missing property
      reads as [undefined] ([ClientEvent], [dispatch]); [receive] is a
      payload listener as it is called with the raw argument, and raises a
      [TypeError] when the argument is [undefined] or [null].
    - Numbers are integers, and [to_str] is JavaScript's string conversion
      on the values marked [printable] (among the numbers, those a
      JavaScript number holds exactly, [safe_integer]); strings are byte
      sequences, and [initials] is the code's on names made of ASCII
      characters ([ascii_only]). The statements on deliveries to a room
      whose name is computed from a payload, and on the shape of the
      initials, carry these as hypotheses. *)

From stdpp Require Import gmap strings list fin_maps pretty.
From Stdlib Require Import ZArith Ascii String.

Local Open Scope string_scope.
Local Open Scope list_scope.
Set Warnings "-register-all".

(** ** JavaScript values *)

(** JSON values as they arrive from a client. Numbers are integers. *)
Inductive Json :=
  | JUndefined
  | JNull
  | JBool (b : bool)
  | JNum (n : Z)
  | JStr (s : string)
  | JArr (items : list Json)
  | JObj (fields : gmap string Json).

(** Values the server sends: JSON, [Date] objects, Mongo ObjectIds and
    object literals built by the handlers. *)
Inductive Value :=
  | VJson (j : Json)
  | VDate (ms : Z)
  | VObjectId (hex : string)
  | VObject (fields : gmap string Value).

Abbreviation Payload := (gmap string Json).

(** [!v] is [negb (truthy v)]. *)
Definition truthy (v : Json) : bool :=
  match v with
  | JUndefined | JNull => false
  | JBool b => b
  | JNum n => negb (n =? 0)%Z
  | JStr s => negb (String.eqb s EmptyString)
  | JArr _ | JObj _ => true
  end.

(** The integers that a JavaScript number holds exactly. *)
Definition safe_integer (n : Z) : bool :=
  ((- 2 ^ 53 <? n) && (n <? 2 ^ 53))%Z.

(** String conversion, as performed by a template literal [`${v}`]. It is
    JavaScript's for the values that are [printable]: JavaScript does not
    print a number beyond the safe integers digit by digit, and the
    conversion of a value that is not [convertible] raises. *)
Fixpoint to_str (v : Json) : string :=
  match v with
  | JUndefined => "undefined"
  | JNull => "null"
  | JBool true => "true"
  | JBool false => "false"
  | JNum n => pretty n
  | JStr s => s
  | JArr items =>
      String.concat ","
        (List.map (fun x => match x with
                            | JUndefined | JNull => EmptyString
                            | _ => to_str x
                            end) items)
  | JObj _ => "[object Object]"
  end.

(** The values a template literal can convert: an object that has a
    property [toString] of its own, which arrives as data and cannot be
    called, makes the conversion raise a [TypeError], also when it is an
    element of an array. *)
Fixpoint convertible (v : Json) : bool :=
  match v with
  | JArr items => forallb convertible items
  | JObj fields =>
      match fields !! "toString" with
      | None => true
      | Some _ => false
      end
  | _ => true
  end.

(** The values whose string conversion [to_str] gives exactly. *)
Fixpoint printable (v : Json) : bool :=
  match v with
  | JNum n => safe_integer n
  | JArr items => forallb printable items
  | JObj fields =>
      match fields !! "toString" with
      | None => true
      | Some _ => false
      end
  | _ => true
  end.

(** [data.k] on a payload object. *)
Definition field (data : Payload) (k : string) : Json :=
  default JUndefined (data !! k).

(** [v.k] on an arbitrary value: [None] is the [TypeError] raised on
    [undefined] and [null]. *)
Definition prop (v : Json) (k : string) : option Json :=
  match v with
  | JUndefined | JNull => None
  | JObj fields => Some (field fields k)
  | _ => Some JUndefined
  end.

(** ** The [User] document *)

Record User := {
  _id : string;          (* ObjectId, as its hexadecimal string *)
  name : string;
  university : string
}.

Fixpoint split (sep : ascii) (s : string) : list string :=
  match s with
  | EmptyString => [EmptyString]
  | String c r =>
      if Ascii.eqb c sep then EmptyString :: split sep r
      else match split sep r with
           | [] => [String c EmptyString]
           | w :: ws => String c w :: ws
           end
  end.

(** [n[0]]; the [undefined] of an empty part is joined as the empty string. *)
Definition first_char (n : string) : string :=
  match n with
  | EmptyString => EmptyString
  | String c _ => String c EmptyString
  end.

(** Strings are sequences of bytes; a string of ASCII characters is the
    same sequence as its UTF-16 code units, which is what [n[0]] and
    [toUpperCase] work on. *)
Definition ascii_only (s : string) : bool :=
  forallb (fun c => (nat_of_ascii c <? 128)%nat) (list_ascii_of_string s).

(** [toUpperCase] on one character of an ASCII string. *)
Definition upper (c : ascii) : ascii :=
  let n := nat_of_ascii c in
  if (97 <=? n)%nat && (n <=? 122)%nat then ascii_of_nat (n - 32) else c.

Fixpoint toUpperCase (s : string) : string :=
  match s with
  | EmptyString => EmptyString
  | String c r => String (upper c) (toUpperCase r)
  end.

(** The virtual [userSchema.virtual('initials')]:
    [this.name.split(' ').map(n => n[0]).join('').toUpperCase()]. *)
Definition initials (u : User) : string :=
  toUpperCase
    (String.concat EmptyString (List.map first_char (split " "%char (name u)))).

(** ** Authentication middleware *)

Inductive FindResult :=
  | Threw                (* the query rejects *)
  | NotFound             (* resolves to [null] *)
  | Found (u : User).

(** The collaborators of the middleware: [jwt.verify] with the configured
    secret ([None] when it throws) and [User.findById]. *)
Record Env := {
  jwt_verify : string -> option Json;
  findById : Json -> FindResult
}.

Inductive AuthResult :=
  | Accept (u : User)         (* [next()] *)
  | Reject (msg : string).   (* [next(new Error(msg))] *)

(** [jwt.verify(token, secret)] throws on a token that is not a string. *)
Definition verify (env : Env) (token : Json) : option Json :=
  match token with
  | JStr s => jwt_verify env s
  | _ => None
  end.

Definition authenticate (env : Env) (token : Json) : AuthResult :=
  if negb (truthy token) then Reject "Authentication error"
  else
    match verify env token with
    | None => Reject "Authentication error"
    | Some decoded =>
        match prop decoded "userId" with
        | None => Reject "Authentication error"
        | Some uid =>
            match findById env uid with
            | Threw => Reject "Authentication error"
            | NotFound => Reject "User not found"
            | Found u => Accept u
            end
        end
    end.

(** ** Server state *)

(** Connection ids ([socket.id]). *)
Abbreviation SocketId := nat.

(** The value stored in [connectedUsers]; [status] is unset until the first
    [status_update]. *)
Record ConnRecord := {
  socketId : SocketId;
  user : User;
  connectedAt : Z;
  status : option Json
}.

(** A socket of the namespace: the identity attached by the middleware
    ([socket.user]; [socket.userId] is its [_id]) and the rooms it is in: the
    named rooms it has joined, whether it is still in the room named by its
    own id (where the transport puts it on connect), and the rooms named by
    other connections' ids that it has joined. *)
Record Socket := {
  sock_user : User;
  sock_rooms : gset string;
  sock_own_room : bool;
  sock_id_rooms : gset SocketId
}.

Definition userId (s : Socket) : string := _id (sock_user s).

Record Server := {
  connectedUsers : gmap string ConnRecord;
  sockets : gmap SocketId Socket
}.

Definition init : Server := {| connectedUsers := ∅; sockets := ∅ |}.

Definition set_connectedUsers (f : gmap string ConnRecord -> gmap string ConnRecord)
    (st : Server) : Server :=
  {| connectedUsers := f (connectedUsers st); sockets := sockets st |}.

Definition set_sockets (f : gmap SocketId Socket -> gmap SocketId Socket)
    (st : Server) : Server :=
  {| connectedUsers := connectedUsers st; sockets := f (sockets st) |}.

(** What the server does to the outside: an event packet written to one
    client socket, the refusal of a handshake with its reason, or the detached
    [User.findByIdAndUpdate(id, {lastSeen})]. *)
Inductive Effect :=
  | Emit (to : SocketId) (event : string) (data : Value)
  | ConnectError (to : SocketId) (msg : string)
  | TouchLastSeen (uid : string) (at_ : Z).

(** ** Rooms and broadcast operators *)

(** A room name is either the id of a connection or another string. *)
Inductive Room :=
  | Own (sid : SocketId)
  | Named (room : string).

Coercion Named : string >-> Room.

(** Whether socket [kv.1], with record [kv.2], is in the room named by the
    id of connection [owner]. *)
Definition in_id_room (owner : SocketId) (kv : SocketId * Socket) : bool :=
  if decide (kv.1 = owner) then sock_own_room kv.2
  else bool_decide (owner ∈ sock_id_rooms kv.2).

(** The sockets currently in a room. *)
Definition members (r : Room) (st : Server) : list SocketId :=
  match r with
  | Own owner =>
      (filter (fun kv : SocketId * Socket => in_id_room owner kv = true)
         (map_to_list (sockets st))).*1
  | Named room =>
      (filter (fun kv : SocketId * Socket => room ∈ sock_rooms kv.2)
         (map_to_list (sockets st))).*1
  end.

Definition emit_each (event : string) (data : Value) (targets : list SocketId)
    : list Effect :=
  (fun sid => Emit sid event data) <$> targets.

(** [io.to(r).emit(event, data)]. *)
Definition io_to (r : Room) (event : string) (data : Value) (st : Server)
    : list Effect :=
  emit_each event data (members r st).

(** [socket.to(r).emit(event, data)]: the room without the sender. *)
Definition socket_to (self : SocketId) (r : Room) (event : string) (data : Value)
    (st : Server) : list Effect :=
  emit_each event data
    (filter (fun sid => sid ≠ self) (members r st)).

(** [io.emit(event, data)]: every socket of the namespace. *)
Definition io_emit (event : string) (data : Value) (st : Server) : list Effect :=
  emit_each event data (map_to_list (sockets st)).*1.

(** [socket.join(room)] / [socket.leave(room)] for a room name that is not
    a connection id. *)
Definition socket_join (sid : SocketId) (room : string) (st : Server) : Server :=
  set_sockets
    (alter (fun s => {| sock_user := sock_user s;
                        sock_rooms := {[room]} ∪ sock_rooms s;
                        sock_own_room := sock_own_room s;
                        sock_id_rooms := sock_id_rooms s |}) sid) st.

Definition socket_leave (sid : SocketId) (room : string) (st : Server) : Server :=
  set_sockets
    (alter (fun s => {| sock_user := sock_user s;
                        sock_rooms := sock_rooms s ∖ {[room]};
                        sock_own_room := sock_own_room s;
                        sock_id_rooms := sock_id_rooms s |}) sid) st.

(** [socket.join(id)] / [socket.leave(id)] for the id of connection
    [owner]. *)
Definition enter_id_room (sid owner : SocketId) (s : Socket) : Socket :=
  if decide (sid = owner) then
    {| sock_user := sock_user s; sock_rooms := sock_rooms s;
       sock_own_room := true; sock_id_rooms := sock_id_rooms s |}
  else
    {| sock_user := sock_user s; sock_rooms := sock_rooms s;
       sock_own_room := sock_own_room s;
       sock_id_rooms := {[owner]} ∪ sock_id_rooms s |}.

Definition quit_id_room (sid owner : SocketId) (s : Socket) : Socket :=
  if decide (sid = owner) then
    {| sock_user := sock_user s; sock_rooms := sock_rooms s;
       sock_own_room := false; sock_id_rooms := sock_id_rooms s |}
  else
    {| sock_user := sock_user s; sock_rooms := sock_rooms s;
       sock_own_room := sock_own_room s;
       sock_id_rooms := sock_id_rooms s ∖ {[owner]} |}.

Definition socket_join_id (sid owner : SocketId) (st : Server) : Server :=
  set_sockets (alter (enter_id_room sid owner) sid) st.

Definition socket_leave_id (sid owner : SocketId) (st : Server) : Server :=
  set_sockets (alter (quit_id_room sid owner) sid) st.

(** [socket.join(roomName)] / [socket.leave(roomName)] for any room name. *)
Definition join (sid : SocketId) (r : Room) (st : Server) : Server :=
  match r with
  | Own owner => socket_join_id sid owner st
  | Named room => socket_join sid room st
  end.

Definition leave (sid : SocketId) (r : Room) (st : Server) : Server :=
  match r with
  | Own owner => socket_leave_id sid owner st
  | Named room => socket_leave sid room st
  end.

Definition university_room (u : User) : string := "university:" +:+ university u.

(** [connectedUsers.get(k)] for a key taken from a payload: the keys of the
    map are strings, and [Map] compares keys without conversion. *)
Definition get_user (st : Server) (k : Json) : option ConnRecord :=
  match k with
  | JStr s => connectedUsers st !! s
  | _ => None
  end.

Definition str (s : string) : Value := VJson (JStr s).

(** An object literal: properties are assigned left to right onto [base]
    ([base] is the spread [...data], or empty). *)
Definition assign (base : gmap string Value) (props : list (string * Value))
    : Value :=
  VObject (foldl (fun m kv => <[kv.1 := kv.2]> m) base props).

Definition spread (data : Payload) : gmap string Value := VJson <$> data.

(** ** Event handlers registered by the connection handler

    Each takes the socket of the closure ([sid], [sock]) and the time. *)

Definition on_new_question (now : Z) (sid : SocketId) (sock : Socket)
    (data : Payload) (st : Server) : Server * list Effect :=
  let u := sock_user sock in
  (st,
   socket_to sid (Named (university_room u)) "new_question"
     (assign (spread data)
        [("author", str (name u));
         ("authorInitial", str (initials u));
         ("university", str (university u));
         ("timestamp", VDate now)]) st
   ++ socket_to sid (Named "global") "question_trending"
     (assign ∅
        [("questionId", VJson (field data "id"));
         ("title", VJson (field data "title"));
         ("university", str (university u))]) st).

Definition question_room (data : Payload) : Room :=
  Named ("question:" +:+ to_str (field data "questionId")).

Definition on_new_answer (now : Z) (sid : SocketId) (sock : Socket)
    (data : Payload) (st : Server) : Server * list Effect :=
  let u := sock_user sock in
  (st,
   socket_to sid (question_room data) "new_answer"
     (assign (spread data)
        [("author", str (name u));
         ("authorInitial", str (initials u));
         ("timestamp", VDate now)]) st).

Definition on_live_chat (now : Z) (sid : SocketId) (sock : Socket)
    (data : Payload) (st : Server) : Server * list Effect :=
  let u := sock_user sock in
  (st,
   socket_to sid (Named ("ama:" +:+ to_str (field data "sessionId"))) "live_chat"
     (assign ∅
        [("message", VJson (field data "message"));
         ("author", str (name u));
         ("authorInitial", str (initials u));
         ("timestamp", VDate now)]) st).

Definition on_typing_start (sid : SocketId) (sock : Socket)
    (data : Payload) (st : Server) : Server * list Effect :=
  (st,
   socket_to sid (question_room data) "user_typing"
     (assign ∅
        [("userId", VObjectId (userId sock));
         ("userName", str (name (sock_user sock)))]) st).

Definition on_typing_stop (sid : SocketId) (sock : Socket)
    (data : Payload) (st : Server) : Server * list Effect :=
  (st,
   socket_to sid (question_room data) "user_stopped_typing"
     (assign ∅ [("userId", VObjectId (userId sock))]) st).

Definition on_question_liked (sid : SocketId) (sock : Socket)
    (data : Payload) (st : Server) : Server * list Effect :=
  (st,
   socket_to sid (question_room data) "question_like_updated"
     (assign ∅
        [("questionId", VJson (field data "questionId"));
         ("likedBy", str (name (sock_user sock)));
         ("likeCount", VJson (field data "likeCount"))]) st).

Definition on_new_connection (sid : SocketId) (sock : Socket)
    (data : Payload) (st : Server) : Server * list Effect :=
  match get_user st (field data "targetUserId") with
  | Some targetUser =>
      (st,
       io_to (Own (socketId targetUser)) "connection_request"
         (assign ∅
            [("from", str (name (sock_user sock)));
             ("fromId", VObjectId (userId sock));
             ("message", VJson (field data "message"))]) st)
  | None => (st, [])
  end.

Definition on_private_message (now : Z) (sid : SocketId) (sock : Socket)
    (data : Payload) (st : Server) : Server * list Effect :=
  match get_user st (field data "targetUserId") with
  | Some targetUser =>
      (st,
       io_to (Own (socketId targetUser)) "private_message"
         (assign ∅
            [("from", str (name (sock_user sock)));
             ("fromId", VObjectId (userId sock));
             ("message", VJson (field data "message"));
             ("timestamp", VDate now)]) st)
  | None => (st, [])
  end.

Definition on_join_room (sid : SocketId) (roomName : Room) (st : Server)
    : Server * list Effect :=
  (join sid roomName st, []).

Definition on_leave_room (sid : SocketId) (roomName : Room) (st : Server)
    : Server * list Effect :=
  (leave sid roomName st, []).

Definition with_status (userData : ConnRecord) (s : Json) : ConnRecord :=
  {| socketId := socketId userData;
     user := user userData;
     connectedAt := connectedAt userData;
     status := Some s |}.

Definition on_status_update (sid : SocketId) (sock : Socket)
    (s : Json) (st : Server) : Server * list Effect :=
  let st1 :=
    match connectedUsers st !! userId sock with
    | Some userData =>
        set_connectedUsers (insert (userId sock) (with_status userData s)) st
    | None => st
    end in
  (st1,
   socket_to sid (Named (university_room (sock_user sock))) "user_status_changed"
     (assign ∅
        [("userId", VObjectId (userId sock));
         ("userName", str (name (sock_user sock)));
         ("status", VJson s)]) st1).

(** The [disconnect] listener; the transport has already taken the socket out
    of the namespace and of its rooms. *)
Definition on_disconnect (now : Z) (sid : SocketId) (sock : Socket)
    (st : Server) : Server * list Effect :=
  let st1 := set_connectedUsers (delete (userId sock)) st in
  (st1,
   TouchLastSeen (userId sock) now
   :: socket_to sid (Named (university_room (sock_user sock))) "user_offline"
        (assign ∅
           [("userId", VObjectId (userId sock));
            ("userName", str (name (sock_user sock)))]) st1).

(** The application events a client can emit. *)
Inductive ClientEvent :=
  | new_question (data : Payload)
  | new_answer (data : Payload)
  | live_chat (data : Payload)
  | typing_start (data : Payload)
  | typing_stop (data : Payload)
  | question_liked (data : Payload)
  | new_connection (data : Payload)
  | private_message (data : Payload)
  | join_room (roomName : Room)
  | leave_room (roomName : Room)
  | status_update (s : Json)
  | error (e : Json).

Definition on_event (now : Z) (sid : SocketId) (sock : Socket)
    (ev : ClientEvent) (st : Server) : Server * list Effect :=
  match ev with
  | new_question data => on_new_question now sid sock data st
  | new_answer data => on_new_answer now sid sock data st
  | live_chat data => on_live_chat now sid sock data st
  | typing_start data => on_typing_start sid sock data st
  | typing_stop data => on_typing_stop sid sock data st
  | question_liked data => on_question_liked sid sock data st
  | new_connection data => on_new_connection sid sock data st
  | private_message data => on_private_message now sid sock data st
  | join_room roomName => on_join_room sid roomName st
  | leave_room roomName => on_leave_room sid roomName st
  | status_update s => on_status_update sid sock s st
  | error _ => (st, [])
  end.

(** ** Lifecycle *)

(** The [io.on('connection')] callback, before it registers the listeners. *)
Definition connection (now : Z) (sid : SocketId) (u : User) (st : Server)
    : Server * list Effect :=
  let st1 :=
    set_connectedUsers
      (insert (_id u)
         {| socketId := sid; user := u; connectedAt := now; status := None |})
      st in
  let st2 := socket_join sid (university_room u) st1 in
  let st3 := socket_join sid "global" st2 in
  (st3, [TouchLastSeen (_id u) now]).

(** The socket as the transport creates it: in the room named by its own id
    and in no other. *)
Definition new_socket (u : User) : Socket :=
  {| sock_user := u; sock_rooms := ∅; sock_own_room := true;
     sock_id_rooms := ∅ |}.

(** A connection attempt with [socket.handshake.auth.token = token]: the
    middleware runs first; the socket enters the namespace and the
    [connection] callback runs only after [next()] without an error. *)
Definition handshake (env : Env) (now : Z) (sid : SocketId) (token : Json)
    (st : Server) : Server * list Effect :=
  match authenticate env token with
  | Reject msg => (st, [ConnectError sid msg])
  | Accept u =>
      connection now sid u
        (set_sockets (insert sid (new_socket u)) st)
  end.

(** An event packet from connection [sid]: only a socket of the namespace
    has listeners. *)
Definition dispatch (now : Z) (sid : SocketId) (ev : ClientEvent) (st : Server)
    : Server * list Effect :=
  match sockets st !! sid with
  | Some sock => on_event now sid sock ev st
  | None => (st, [])
  end.

(** The transport closes connection [sid]. *)
Definition close (now : Z) (sid : SocketId) (st : Server)
    : Server * list Effect :=
  match sockets st !! sid with
  | Some sock => on_disconnect now sid sock (set_sockets (delete sid) st)
  | None => (st, [])
  end.

(** ** Payload listeners as the transport calls them *)

(** The events whose listener reads properties of its argument. *)
Inductive PayloadEvent :=
  | NewQuestion
  | NewAnswer
  | LiveChat
  | TypingStart
  | TypingStop
  | QuestionLiked
  | NewConnection
  | PrivateMessage.

Definition with_payload (name : PayloadEvent) (data : Payload) : ClientEvent :=
  match name with
  | NewQuestion => new_question data
  | NewAnswer => new_answer data
  | LiveChat => live_chat data
  | TypingStart => typing_start data
  | TypingStop => typing_stop data
  | QuestionLiked => question_liked data
  | NewConnection => new_connection data
  | PrivateMessage => private_message data
  end.

(** The own enumerable properties of an argument, as property reads and the
    spread [...data] see them; [None] for [undefined] and [null], on which
    the first property read raises a [TypeError]. An array has its elements
    under their indices, a string its characters (ASCII strings), a number
    or a boolean has none. *)
Definition indexed (items : list Json) : Payload :=
  list_to_map (imap (fun i x => (pretty i, x)) items).

Definition own_properties (arg : Json) : option Payload :=
  match arg with
  | JUndefined | JNull => None
  | JObj fields => Some fields
  | JArr items => Some (indexed items)
  | JStr s =>
      Some (indexed (List.map (fun c => JStr (String c EmptyString))
                       (list_ascii_of_string s)))
  | JBool _ | JNum _ => Some ∅
  end.

(** The property of the payload that a listener puts in a template
    literal to name the room it sends to. *)
Definition room_key (name : PayloadEvent) : option string :=
  match name with
  | NewAnswer | TypingStart | TypingStop | QuestionLiked => Some "questionId"
  | LiveChat => Some "sessionId"
  | NewQuestion | NewConnection | PrivateMessage => None
  end.

Definition names_room (name : PayloadEvent) (data : Payload) : bool :=
  match room_key name with
  | Some k => convertible (field data k)
  | None => true
  end.

(** What calling a listener comes to: it returns, with a new state and the
    packets it wrote, or it throws before having done anything. *)
Inductive Outcome :=
  | Handled (st : Server) (out : list Effect)
  | Uncaught (error : string) (st : Server).

(** Every payload listener reads a property of its argument, and names its
    room if it has one to name, before it writes or sends anything. *)
Definition receive (now : Z) (sid : SocketId) (name : PayloadEvent)
    (arg : Json) (st : Server) : Outcome :=
  match sockets st !! sid with
  | None => Handled st []
  | Some _ =>
      match own_properties arg with
      | None => Uncaught "TypeError" st
      | Some data =>
          if names_room name data then
            Handled (dispatch now sid (with_payload name data) st).1
                    (dispatch now sid (with_payload name data) st).2
          else Uncaught "TypeError" st
      end
  end.

(** ** Utility functions returned to the REST layer *)

Definition emitToUser (userId : string) (event : string) (data : Value)
    (st : Server) : list Effect :=
  match connectedUsers st !! userId with
  | Some userData => io_to (Own (socketId userData)) event data st
  | None => []
  end.

Definition emitToUniversity (university : string) (event : string)
    (data : Value) (st : Server) : list Effect :=
  io_to (Named ("university:" +:+ university)) event data st.

Definition emitToAll (event : string) (data : Value) (st : Server)
    : list Effect :=
  io_emit event data st.

Definition getConnectedUsers (st : Server) : list ConnRecord :=
  (map_to_list (connectedUsers st)).*2.

Definition getConnectedUsersCount (st : Server) : nat :=
  size (connectedUsers st).

(** ** Runs of the server *)

Inductive Input :=
  | Handshake (sid : SocketId) (token : Json)
  | Event (sid : SocketId) (ev : ClientEvent)
  | Close (sid : SocketId).

Definition step (env : Env) (now : Z) (i : Input) (st : Server)
    : Server * list Effect :=
  match i with
  | Handshake sid token => handshake env now sid token st
  | Event sid ev => dispatch now sid ev st
  | Close sid => close now sid st
  end.

(** The transport draws a fresh id for every connection attempt. *)
Definition admissible (i : Input) (st : Server) : Prop :=
  match i with
  | Handshake sid _ => sockets st !! sid = None
  | _ => True
  end.

Inductive reachable (env : Env) : Server -> Prop :=
  | reach_init : reachable env init
  | reach_step now i st :
      reachable env st -> admissible i st ->
      reachable env (step env now i st).1.

(** Runs a list of timed inputs from a state, dropping the effects. *)
Definition run (env : Env) (trace : list (Z * Input)) (st : Server) : Server :=
  foldl (fun s ti => (step env ti.1 ti.2 s).1) st trace.

(** The recipients of the event packets among a list of effects. *)
Definition recipients (out : list Effect) : list SocketId :=
  omap (fun e => match e with Emit to _ _ => Some to | _ => None end) out.

(** ** A concrete deployment used in the examples *)

Definition alice : User := {| _id := "a1"; name := "Alice Ng"; university := "X" |}.
Definition bob : User := {| _id := "b1"; name := "Bob"; university := "X" |}.
Definition carol : User := {| _id := "c1"; name := "Carol"; university := "Y" |}.

(** Three valid tokens for stored users, one valid token for a deleted
    account; every other string fails verification. *)
Definition demo_env : Env :=
  {| jwt_verify := fun s =>
       if String.eqb s "tok-a" then Some (JObj {["userId" := JStr "a1"]})
       else if String.eqb s "tok-b" then Some (JObj {["userId" := JStr "b1"]})
       else if String.eqb s "tok-c" then Some (JObj {["userId" := JStr "c1"]})
       else if String.eqb s "tok-gone" then Some (JObj {["userId" := JStr "d1"]})
       else None;
     findById := fun k =>
       match k with
       | JStr s =>
           if String.eqb s "a1" then Found alice
           else if String.eqb s "b1" then Found bob
           else if String.eqb s "c1" then Found carol
           else NotFound
       | _ => Threw
       end |}.

(** The identity attached to each live socket. *)
Definition identities (st : Server) : gmap SocketId User :=
  sock_user <$> sockets st.

(** Every registry entry names a live socket of the user it is filed under. *)
Definition registry_live (st : Server) : Prop :=
  ∀ k r, connectedUsers st !! k = Some r →
         ∃ u, identities st !! socketId r = Some u ∧ _id u = k.


(** Why the middleware refuses a handshake. *)
Inductive Cause :=
  | NoCredential        (* [!token] *)
  | BadCredential       (* [jwt.verify] throws *)
  | BadClaims           (* [decoded.userId] throws *)
  | StoreFailure        (* [User.findById] rejects *)
  | UnknownIdentity.    (* [User.findById] resolves to [null] *)

Inductive refused (env : Env) (token : Json) : Cause -> Prop :=
  | refused_missing :
      truthy token = false -> refused env token NoCredential
  | refused_invalid :
      truthy token = true -> verify env token = None ->
      refused env token BadCredential
  | refused_claims decoded :
      truthy token = true -> verify env token = Some decoded ->
      prop decoded "userId" = None ->
      refused env token BadClaims
  | refused_store decoded uid :
      truthy token = true -> verify env token = Some decoded ->
      prop decoded "userId" = Some uid -> findById env uid = Threw ->
      refused env token StoreFailure
  | refused_unknown decoded uid :
      truthy token = true -> verify env token = Some decoded ->
      prop decoded "userId" = Some uid -> findById env uid = NotFound ->
      refused env token UnknownIdentity.

(** A run in which every connection attempt comes with an unused id. *)
Fixpoint admissible_trace (env : Env) (trace : list (Z * Input)) (st : Server)
    : Prop :=
  match trace with
  | [] => True
  | ti :: rest =>
      admissible ti.2 st ∧ admissible_trace env rest (step env ti.1 ti.2 st).1
  end.

(** The registry entries filed under one user id. *)
Definition entries_of (uid : string) (st : Server) : list (string * ConnRecord) :=
  filter (fun kv : string * ConnRecord => kv.1 = uid)
    (map_to_list (connectedUsers st)).

(** The three properties the handlers stamp onto a relayed payload. *)
Definition stamp_keys : list string := ["author"; "authorInitial"; "timestamp"].

(** Two payloads that differ at most in the stamped properties. *)
Definition agree_off_stamp (d1 d2 : Payload) : Prop :=
  ∀ k, k ∉ stamp_keys → d1 !! k = d2 !! k.

(** Alice, Bob and Carol connect, one connection each. *)
Definition campus_trace : list (Z * Input) :=
  [(1%Z, Handshake 1 (JStr "tok-a"));
   (2%Z, Handshake 2 (JStr "tok-b"));
   (3%Z, Handshake 3 (JStr "tok-c"))].

Definition campus : Server := run demo_env campus_trace init.

(** Alice opens two connections and the first one closes. *)
Definition two_sessions_trace : list (Z * Input) :=
  [(1%Z, Handshake 1 (JStr "tok-a"));
   (2%Z, Handshake 2 (JStr "tok-a"));
   (3%Z, Close 1)].

Definition orphaned : Server := run demo_env two_sessions_trace init.

(** The socket the connection handler leaves for a user. *)
Definition fresh_socket (u : User) : Socket :=
  {| sock_user := u;
     sock_rooms := {["global"]} ∪ ({[university_room u]} ∪ ∅);
     sock_own_room := true;
     sock_id_rooms := ∅ |}.

Definition hello_bob : Payload :=
  {["targetUserId" := JStr "b1"; "message" := JStr "hi"]}.

Definition honest_question : Payload :=
  {["id" := JNum 7; "title" := JStr "T"]}.

Definition forged_question : Payload :=
  {["id" := JNum 7; "title" := JStr "T"; "author" := JStr "Bob";
    "authorInitial" := JStr "B"; "timestamp" := JNum 0]}.

(** A registry entry and the socket it names agree on the user: the socket
    is live, carries the recorded user document, and the entry is filed
    under that user's id. *)
Definition registry_consistent (st : Server) : Prop :=
  ∀ k r, connectedUsers st !! k = Some r →
         ∃ sock, sockets st !! socketId r = Some sock
                 ∧ sock_user sock = user r ∧ _id (user r) = k.

(** The rooms named by connection ids are as the transport set them up:
    every socket is in the room of its own id and in no other's. *)
Definition id_rooms_untouched (st : Server) : Prop :=
  ∀ s o, sockets st !! s = Some o →
         sock_own_room o = true ∧ sock_id_rooms o = ∅.

(** An input that passes a connection id to [join_room] or [leave_room]. *)
Definition names_id_room (i : Input) : bool :=
  match i with
  | Event _ (join_room (Own _)) | Event _ (leave_room (Own _)) => true
  | _ => false
  end.

(** Carol passes the id of Bob's connection to [join_room]. *)
Definition campus_overheard : Server :=
  (dispatch 4 3 (join_room (Own 2)) campus).1.

(** Bob joins the room of question 7 on his connection. *)
Definition campus_watching : Server :=
  (dispatch 4 2 (join_room "question:7") campus).1.

Definition answer_7 : Payload :=
  {["questionId" := JNum 7; "content" := JStr "use a map"]}.

(** ** The Question model: likes, comments and views

    The methods and virtuals of [questionSchema]; of the document only the
    three fields they read and write are kept. User ids are compared by
    value, as Mongoose arrays of ObjectIds do. The boolean returned beside
    the document tells whether the method went on to [this.save()]. *)

Record Comment := {
  comment_author : string;
  isAnswer : bool
}.

Record Question := {
  likes : list string;
  comments : list Comment;
  views : Z
}.

(** [arr.indexOf(x)]: the first position of [x], or [-1]. *)
Fixpoint indexOf (x : string) (arr : list string) : Z :=
  match arr with
  | [] => (-1)%Z
  | y :: rest =>
      if decide (x = y) then 0%Z
      else let i := indexOf x rest in
           if (i <? 0)%Z then (-1)%Z else (i + 1)%Z
  end.

(** [arr.includes(x)] is [arr.indexOf(x) !== -1]. *)
Definition includes (x : string) (arr : list string) : bool :=
  negb (indexOf x arr =? -1)%Z.

(** [arr.splice(index, 1)] for [index >= 0]. *)
Definition splice1 (index : Z) (arr : list string) : list string :=
  delete (Z.to_nat index) arr.

Definition likeCount (q : Question) : nat := List.length (likes q).

Definition commentCount (q : Question) : nat := List.length (comments q).

Definition answerCount (q : Question) : nat :=
  List.length (filter (fun c => isAnswer c = true) (comments q)).

Definition addLike (userId : string) (q : Question) : Question * bool :=
  if negb (includes userId (likes q)) then
    ({| likes := likes q ++ [userId]; comments := comments q;
        views := views q |}, true)
  else (q, false).

Definition removeLike (userId : string) (q : Question) : Question * bool :=
  let index := indexOf userId (likes q) in
  if (index >? -1)%Z then
    ({| likes := splice1 index (likes q); comments := comments q;
        views := views q |}, true)
  else (q, false).

Definition addComment (commentData : Comment) (q : Question) : Question * bool :=
  ({| likes := likes q; comments := comments q ++ [commentData];
      views := views q |}, true).

Definition incrementViews (q : Question) : Question * bool :=
  ({| likes := likes q; comments := comments q; views := (views q + 1)%Z |},
   true).

(** ** The in-memory server: accounts

    The [/api/auth/register], [/api/auth/login] and [/api/users] routes over
    the [users] array. A request body is an object of JSON values. *)

Module SimpleServer.

Record Account := {
  id : Z;
  name : Json;
  email : Json;
  password : Json;
  university : Json
}.

(** [res.status(code).json(body)]; [res.json] alone answers 200. *)
Record Response := {
  code : nat;
  body : Json
}.

(** [a === b] between two values that were parsed from different request
    bodies: primitives by value, objects and arrays never. *)
Definition strict_eq (a b : Json) : bool :=
  match a, b with
  | JUndefined, JUndefined => true
  | JNull, JNull => true
  | JBool x, JBool y => Bool.eqb x y
  | JNum x, JNum y => (x =? y)%Z
  | JStr x, JStr y => String.eqb x y
  | _, _ => false
  end.

(** [users.find(pred)]. *)
Definition find (pred : Account -> bool) (users : list Account)
    : option Account :=
  List.find pred users.

Definition obj (props : list (string * Json)) : Json :=
  JObj (foldl (fun m kv => <[kv.1 := kv.2]> m) ∅ props).

Definition error_body (msg : string) : Json := obj [("error", JStr msg)].

Definition token_for (i : Z) : Json := JStr ("token_" +:+ to_str (JNum i)).

(** The public view of an account used in the three responses. *)
Definition public (u : Account) : Json :=
  obj [("id", JNum (id u)); ("name", name u); ("email", email u);
       ("university", university u)].

Definition register (now : Z) (reqBody : Payload) (users : list Account)
    : list Account * Response :=
  let name_ := field reqBody "name" in
  let email_ := field reqBody "email" in
  let password_ := field reqBody "password" in
  let university_ := field reqBody "university" in
  if negb (truthy name_) || negb (truthy email_) || negb (truthy password_)
     || negb (truthy university_)
  then (users, {| code := 400; body := error_body "All fields required" |})
  else
    match find (fun u => strict_eq (email u) email_) users with
    | Some _ =>
        (users, {| code := 400; body := error_body "User already exists" |})
    | None =>
        let newUser :=
          {| id := now; name := name_; email := email_;
             password := password_; university := university_ |} in
        (users ++ [newUser],
         {| code := 200;
            body := obj [("message", JStr "Registration successful!");
                         ("user", public newUser);
                         ("token", token_for (id newUser))] |})
    end.

Definition login (reqBody : Payload) (users : list Account) : Response :=
  let email_ := field reqBody "email" in
  let password_ := field reqBody "password" in
  match find (fun u => strict_eq (email u) email_
                       && strict_eq (password u) password_) users with
  | None => {| code := 401; body := error_body "Invalid credentials" |}
  | Some user =>
      {| code := 200;
         body := obj [("message", JStr "Login successful!");
                      ("user", public user);
                      ("token", token_for (id user))] |}
  end.

(** [GET /api/users]. *)
Definition list_users (users : list Account) : Response :=
  {| code := 200;
     body := obj [("users", JArr (List.map public users))] |}.

(** The store after a sequence of registration requests, oldest first. *)
Definition registrations (reqs : list (Z * Payload)) (users : list Account)
    : list Account :=
  foldl (fun us req => (register req.1 req.2 us).1) users reqs.

Definition primitive (v : Json) : bool :=
  match v with
  | JArr _ | JObj _ => false
  | _ => true
  end.

Definition dana : Payload :=
  {["name" := JStr "Dana"; "email" := JStr "dana@x.edu";
    "password" := JStr "s3cret"; "university" := JStr "X"]}.

End SimpleServer.

(** Going through the sockets of a concrete state one by one. *)
Ltac each_socket Hs :=
  apply elem_of_map_to_list in Hs; vm_compute in Hs;
  repeat (apply elem_of_cons in Hs as [Hs|Hs];
          [injection Hs as -> ->;
           first [reflexivity | apply not_elem_of_empty]|]);
  by apply elem_of_nil in Hs.

(** Proof steps for the stamped payloads: a literal key lies outside
    [stamp_keys]; a property is read through the assignments of a literal. *)
Ltac off_stamp :=
  unfold stamp_keys; rewrite !not_elem_of_cons;
  repeat split; first [done | apply not_elem_of_nil].

Ltac read_stamp :=
  subst; repeat split;
  repeat first [rewrite lookup_insert_eq | rewrite lookup_insert_ne by done];
  reflexivity.

(** ** Membership and fan-out lemmas *)

Section fanout.
Implicit Types (st : Server) (sid self : SocketId) (r : Room) (data : Value).

Lemma elem_of_members_named room st sid :
  sid ∈ members (Named room) st ↔
  ∃ sock, sockets st !! sid = Some sock ∧ room ∈ sock_rooms sock.
Proof.
  unfold members. rewrite list_elem_of_fmap. split.
  - intros [[k sock] [-> [Hin Hm]%list_elem_of_filter]].
    apply elem_of_map_to_list in Hm. eauto.
  - intros (sock & Hl & Hin). exists (sid, sock). split; [done|].
    apply list_elem_of_filter. split; [done|]. by apply elem_of_map_to_list.
Qed.

Lemma elem_of_members_own owner st sid :
  sid ∈ members (Own owner) st ↔
  ∃ sock, sockets st !! sid = Some sock ∧ in_id_room owner (sid, sock) = true.
Proof.
  unfold members. rewrite list_elem_of_fmap. split.
  - intros [[k sock] [-> [Hin Hm]%list_elem_of_filter]].
    apply elem_of_map_to_list in Hm. eauto.
  - intros (sock & Hl & Hin). exists (sid, sock). split; [done|].
    apply list_elem_of_filter. split; [done|]. by apply elem_of_map_to_list.
Qed.

Lemma members_live r st sid :
  sid ∈ members r st → is_Some (sockets st !! sid).
Proof.
  destruct r as [owner|room].
  - intros (sock & Hs & _)%elem_of_members_own. eauto.
  - intros (sock & Hs & _)%elem_of_members_named. eauto.
Qed.

Lemma members_NoDup r st : NoDup (members r st).
Proof.
  destruct r as [owner|room]; unfold members; apply NoDup_fmap_fst.
  - intros sid s1 s2 [_ H1%elem_of_map_to_list]%list_elem_of_filter
      [_ H2%elem_of_map_to_list]%list_elem_of_filter. congruence.
  - apply NoDup_filter, NoDup_map_to_list.
  - intros sid s1 s2 [_ H1%elem_of_map_to_list]%list_elem_of_filter
      [_ H2%elem_of_map_to_list]%list_elem_of_filter. congruence.
  - apply NoDup_filter, NoDup_map_to_list.
Qed.

Lemma emit_each_NoDup event data targets :
  NoDup targets → NoDup (emit_each event data targets).
Proof.
  intros H. unfold emit_each. apply NoDup_fmap_2; [|done].
  intros s1 s2 Heq. by injection Heq.
Qed.

Lemma in_id_room_spec owner s o :
  in_id_room owner (s, o) = true ↔
  if decide (s = owner) then sock_own_room o = true
  else owner ∈ sock_id_rooms o.
Proof.
  unfold in_id_room. simpl. destruct (decide (s = owner)); [done|].
  by rewrite bool_decide_eq_true.
Qed.

Lemma singleton_of_NoDup {A} (l : list A) a :
  NoDup l → (∀ x, x ∈ l ↔ x = a) → l = [a].
Proof.
  intros Hnd H. destruct l as [|x l].
  - exfalso. apply (elem_of_nil a). by apply H.
  - assert (x = a) as -> by (apply H; left).
    destruct l as [|y l]; [done|].
    assert (y = a) as -> by (apply H; right; left).
    apply NoDup_cons in Hnd as [Hn _]. exfalso. apply Hn. left.
Qed.

(** The room named by a connection's id holds that connection alone as long
    as its owner has not left it and nobody else has joined it. *)
Lemma members_own_untouched owner osock st :
  sockets st !! owner = Some osock →
  (∀ s o, sockets st !! s = Some o →
          if decide (s = owner) then sock_own_room o = true
          else owner ∉ sock_id_rooms o) →
  members (Own owner) st = [owner].
Proof.
  intros Ho Hroom. apply singleton_of_NoDup; [apply members_NoDup|].
  intros s. rewrite elem_of_members_own. split.
  - intros (o & Hs & Hin%in_id_room_spec). specialize (Hroom s o Hs).
    destruct (decide (s = owner)); [done|]. contradiction.
  - intros ->. exists osock. split; [done|]. apply in_id_room_spec.
    specialize (Hroom owner osock Ho). by destruct (decide (owner = owner)).
Qed.

Lemma elem_of_emit_each event data targets e :
  e ∈ emit_each event data targets ↔
  ∃ sid, e = Emit sid event data ∧ sid ∈ targets.
Proof. unfold emit_each. apply list_elem_of_fmap. Qed.

Lemma recipients_emit_each event data targets :
  recipients (emit_each event data targets) = targets.
Proof.
  unfold recipients, emit_each.
  induction targets as [|t ts IH]; [done|]. cbn. f_equal. exact IH.
Qed.

Lemma recipients_app out1 out2 :
  recipients (out1 ++ out2) = recipients out1 ++ recipients out2.
Proof. unfold recipients. apply omap_app. Qed.

Lemma elem_of_io_to r event data st e :
  e ∈ io_to r event data st ↔
  ∃ sid, e = Emit sid event data ∧ sid ∈ members r st.
Proof. apply elem_of_emit_each. Qed.

Lemma elem_of_socket_to self r event data st e :
  e ∈ socket_to self r event data st ↔
  ∃ sid, e = Emit sid event data ∧ sid ≠ self ∧ sid ∈ members r st.
Proof.
  unfold socket_to. rewrite elem_of_emit_each.
  by setoid_rewrite list_elem_of_filter.
Qed.

Lemma recipients_socket_to self r event data st :
  self ∉ recipients (socket_to self r event data st).
Proof.
  unfold socket_to. rewrite recipients_emit_each.
  by intros [? _]%list_elem_of_filter.
Qed.

Lemma socket_to_reaches_others self room event data st sid sock :
  sid ≠ self → sockets st !! sid = Some sock → room ∈ sock_rooms sock →
  Emit sid event data ∈ socket_to self (Named room) event data st.
Proof.
  intros Hne Hl Hin. apply elem_of_socket_to. exists sid.
  split; [done|]. split; [done|]. apply elem_of_members_named. eauto.
Qed.

Lemma elem_of_io_emit event data st e :
  e ∈ io_emit event data st ↔
  ∃ sid, e = Emit sid event data ∧ is_Some (sockets st !! sid).
Proof.
  unfold io_emit. rewrite elem_of_emit_each. split.
  - intros (sid & -> & Hin). exists sid. split; [done|].
    apply list_elem_of_fmap in Hin as [[k sock] [-> Hin]].
    apply elem_of_map_to_list in Hin. eauto.
  - intros (sid & -> & [sock Hl]). exists sid. split; [done|].
    apply list_elem_of_fmap. exists (sid, sock). split; [done|].
    by apply elem_of_map_to_list.
Qed.
End fanout.

(** ** How the handlers move the state *)

Section frames.
Implicit Types (st : Server) (sid : SocketId) (sock : Socket).

Lemma identities_lookup st sid sock :
  sockets st !! sid = Some sock → identities st !! sid = Some (sock_user sock).
Proof. intros H. unfold identities. by rewrite lookup_fmap, H. Qed.

Lemma identities_lookup_None st sid :
  sockets st !! sid = None → identities st !! sid = None.
Proof. intros H. unfold identities. by rewrite lookup_fmap, H. Qed.

Lemma identities_alter st sid f :
  (∀ s, sock_user (f s) = sock_user s) →
  identities (set_sockets (alter f sid) st) = identities st.
Proof.
  intros Hf. apply map_eq. intros k. unfold identities. simpl.
  rewrite !lookup_fmap. destruct (decide (sid = k)) as [->|Hne].
  - rewrite lookup_alter_eq. destruct (sockets st !! k); simpl; [|done].
    by rewrite Hf.
  - by rewrite lookup_alter_ne.
Qed.

Lemma identities_join st sid room :
  identities (socket_join sid room st) = identities st.
Proof. by apply identities_alter. Qed.

Lemma identities_leave st sid room :
  identities (socket_leave sid room st) = identities st.
Proof. by apply identities_alter. Qed.

Lemma enter_id_room_user sid owner s :
  sock_user (enter_id_room sid owner s) = sock_user s.
Proof. unfold enter_id_room. by destruct (decide _). Qed.

Lemma quit_id_room_user sid owner s :
  sock_user (quit_id_room sid owner s) = sock_user s.
Proof. unfold quit_id_room. by destruct (decide _). Qed.

Lemma identities_join_room st sid (r : Room) :
  identities (join sid r st) = identities st.
Proof.
  destruct r as [owner|room]; [|apply identities_join].
  apply identities_alter. intros s. apply enter_id_room_user.
Qed.

Lemma identities_leave_room st sid (r : Room) :
  identities (leave sid r st) = identities st.
Proof.
  destruct r as [owner|room]; [|apply identities_leave].
  apply identities_alter. intros s. apply quit_id_room_user.
Qed.

Lemma join_registry st sid (r : Room) :
  connectedUsers (join sid r st) = connectedUsers st.
Proof. by destruct r. Qed.

Lemma leave_registry st sid (r : Room) :
  connectedUsers (leave sid r st) = connectedUsers st.
Proof. by destruct r. Qed.

Lemma join_other st sid (r : Room) s :
  sid ≠ s → sockets (join sid r st) !! s = sockets st !! s.
Proof. intros H. destruct r; simpl; by rewrite lookup_alter_ne. Qed.

Lemma leave_other st sid (r : Room) s :
  sid ≠ s → sockets (leave sid r st) !! s = sockets st !! s.
Proof. intros H. destruct r; simpl; by rewrite lookup_alter_ne. Qed.

Lemma on_event_registry now sid sock ev st :
  (∀ s, ev ≠ status_update s) →
  connectedUsers (on_event now sid sock ev st).1 = connectedUsers st.
Proof.
  intros Hev. destruct ev; simpl; try reflexivity.
  - unfold on_new_connection. by destruct (get_user _ _).
  - unfold on_private_message. by destruct (get_user _ _).
  - apply join_registry.
  - apply leave_registry.
  - by destruct (Hev s).
Qed.

Lemma on_event_identities now sid sock ev st :
  identities (on_event now sid sock ev st).1 = identities st.
Proof.
  destruct ev; simpl; try reflexivity.
  - unfold on_new_connection. by destruct (get_user _ _).
  - unfold on_private_message. by destruct (get_user _ _).
  - apply identities_join_room.
  - apply identities_leave_room.
  - unfold on_status_update. by destruct (connectedUsers st !! userId sock).
Qed.

Lemma connection_registry now sid u st :
  connectedUsers (connection now sid u st).1 =
  <[_id u := {| socketId := sid; user := u; connectedAt := now;
                status := None |}]> (connectedUsers st).
Proof. reflexivity. Qed.

Lemma connection_identities now sid u st :
  identities (connection now sid u st).1 = identities st.
Proof.
  unfold connection. simpl. rewrite identities_join, identities_join.
  reflexivity.
Qed.

Lemma handshake_accept env now sid token st u :
  authenticate env token = Accept u →
  handshake env now sid token st =
  connection now sid u
    (set_sockets (insert sid (new_socket u)) st).
Proof. intros H. unfold handshake. by rewrite H. Qed.

Lemma handshake_reject env now sid token st msg :
  authenticate env token = Reject msg →
  handshake env now sid token st = (st, [ConnectError sid msg]).
Proof. intros H. unfold handshake. by rewrite H. Qed.

(** Only a successful handshake under that id gives a connection a socket. *)
Lemma step_keeps_absent env now i st sid :
  sockets st !! sid = None →
  (∀ token, i ≠ Handshake sid token) →
  sockets (step env now i st).1 !! sid = None.
Proof.
  intros Hnone Hi. apply (fmap_None sock_user).
  rewrite <-lookup_fmap. change (identities (step env now i st).1 !! sid = None).
  destruct i as [sid' token|sid' ev|sid']; unfold step.
  - destruct (authenticate env token) as [u|msg] eqn:Ha.
    + rewrite (handshake_accept _ _ _ _ _ _ Ha), connection_identities.
      unfold identities; simpl. rewrite fmap_insert, lookup_insert_ne.
      * by apply identities_lookup_None.
      * intros ->. by destruct (Hi token).
    + rewrite (handshake_reject _ _ _ _ _ _ Ha).
      by apply identities_lookup_None.
  - unfold dispatch. destruct (sockets st !! sid') as [sock|].
    + rewrite on_event_identities. by apply identities_lookup_None.
    + by apply identities_lookup_None.
  - unfold close. destruct (sockets st !! sid') as [sock|].
    + unfold identities; simpl. rewrite fmap_delete.
      apply lookup_delete_None. right. by apply identities_lookup_None.
    + by apply identities_lookup_None.
Qed.

Lemma run_keeps_absent env trace st sid :
  sockets st !! sid = None →
  Forall (fun ti => ∀ token, ti.2 ≠ Handshake sid token) trace →
  sockets (run env trace st) !! sid = None.
Proof.
  intros Hnone Htr. revert st Hnone.
  induction Htr as [|[now i] trace Hi _ IH]; intros st Hnone; [done|].
  simpl. apply IH. by apply step_keeps_absent.
Qed.

Lemma step_registry_live env now i st :
  registry_live st → admissible i st →
  registry_live (step env now i st).1.
Proof.
  intros Hinv Hadm. destruct i as [sid token|sid ev|sid]; unfold step.
  - destruct (authenticate env token) as [u|msg] eqn:Ha;
      [rewrite (handshake_accept _ _ _ _ _ _ Ha)
      |by rewrite (handshake_reject _ _ _ _ _ _ Ha)].
    simpl in Hadm.
    intros k r. rewrite connection_registry, connection_identities.
    unfold identities; simpl. rewrite fmap_insert.
    destruct (decide (_id u = k)) as [<-|Hne].
    + rewrite lookup_insert_eq. intros [= <-]. simpl.
      rewrite lookup_insert_eq. eauto.
    + rewrite lookup_insert_ne by done. intros Hr.
      destruct (Hinv k r Hr) as (u' & Hu' & Hk). exists u'. split; [|done].
      rewrite lookup_insert_ne; [done|]. intros Heq.
      apply identities_lookup_None in Hadm. congruence.
  - unfold dispatch. destruct (sockets st !! sid) as [sock|] eqn:Hs; [|done].
    intros k r. rewrite on_event_identities.
    destruct ev; try (rewrite on_event_registry by done; apply Hinv).
    simpl. destruct (connectedUsers st !! userId sock) as [userData|] eqn:Hu;
      simpl; [|apply Hinv].
    destruct (decide (userId sock = k)) as [<-|Hne].
    + rewrite lookup_insert_eq. intros [= <-]. simpl. by apply Hinv.
    + rewrite lookup_insert_ne by done. apply Hinv.
  - unfold close. destruct (sockets st !! sid) as [sock|] eqn:Hs; [|done].
    intros k r. simpl. unfold identities; simpl. rewrite fmap_delete.
    intros [Hne Hr]%lookup_delete_Some.
    destruct (Hinv k r Hr) as (u' & Hu' & Hk). exists u'. split; [|done].
    rewrite lookup_delete_ne; [done|]. intros Heq.
    apply identities_lookup in Hs. unfold userId in Hne. congruence.
Qed.

Lemma reachable_registry_live env st :
  reachable env st → registry_live st.
Proof.
  induction 1 as [|now i st _ IH Hadm].
  - intros k r. unfold init; simpl. by rewrite lookup_empty.
  - by apply step_registry_live.
Qed.


Lemma reachable_run env trace st :
  reachable env st → admissible_trace env trace st →
  reachable env (run env trace st).
Proof.
  revert st. induction trace as [|[now i] trace IH]; intros st Hr Hadm; [done|].
  destruct Hadm as [Hi Hrest]. simpl. apply IH; [|done].
  by apply reach_step.
Qed.

Lemma filter_none {A} (P : A → Prop) `{∀ x, Decision (P x)} (l : list A) :
  Forall (fun x => ¬ P x) l → filter P l = [].
Proof.
  induction 1 as [|x l Hx _ IH]; [done|]. by rewrite filter_cons_False.
Qed.

Lemma only_entry {A} (m : gmap string A) k v :
  m !! k = Some v →
  filter (fun kv : string * A => kv.1 = k) (map_to_list m) = [(k, v)].
Proof.
  intros Hk. apply Permutation_singleton_r.
  rewrite <-(insert_delete_id m k v Hk) at 1.
  rewrite map_to_list_insert by apply lookup_delete_eq.
  rewrite filter_cons_True by done.
  rewrite filter_none; [done|].
  apply Forall_forall. intros [k' v'] Hin%elem_of_map_to_list Heq.
  simpl in Heq. subst k'. by rewrite lookup_delete_eq in Hin.
Qed.
End frames.

(** ** The authentication middleware *)

Lemma authenticate_refused env token c :
  refused env token c →
  authenticate env token =
  Reject (match c with
          | UnknownIdentity => "User not found"
          | _ => "Authentication error"
          end).
Proof.
  unfold authenticate.
  destruct 1 as [Ht|Ht Hv|d Ht Hv Hp|d uid Ht Hv Hp Hf|d uid Ht Hv Hp Hf];
    rewrite Ht; simpl; try done; rewrite Hv; try done; rewrite Hp; try done;
    by rewrite Hf.
Qed.

Lemma authenticate_reject_refused env token msg :
  authenticate env token = Reject msg → ∃ c, refused env token c.
Proof.
  unfold authenticate. destruct (truthy token) eqn:Ht; simpl.
  - destruct (verify env token) as [d|] eqn:Hv;
      [|intros _; exists BadCredential; by constructor].
    destruct (prop d "userId") as [uid|] eqn:Hp;
      [|intros _; exists BadClaims; by econstructor].
    destruct (findById env uid) eqn:Hf; [| |done].
    + intros _. exists StoreFailure. by econstructor.
    + intros _. exists UnknownIdentity. by econstructor.
  - intros _. exists NoCredential. by constructor.
Qed.

(** C8 (as the code has it): the middleware has two error reasons, not three.
    A handshake without a credential and one whose credential fails
    verification are both refused with ["Authentication error"] (as are a
    decoded value without readable claims and a failing identity lookup); a
    verified credential whose identity is not in the store is refused with
    the different reason ["User not found"]. *)
Theorem auth_reasons env token c :
  refused env token c →
  authenticate env token =
  Reject (match c with
          | UnknownIdentity => "User not found"
          | _ => "Authentication error"
          end)
  ∧ "Authentication error" ≠ "User not found".
Proof. intros H. split; [by apply authenticate_refused|done]. Qed.

Lemma auth_reasons_witness :
  authenticate demo_env (JStr "tok-gone") = Reject "User not found"
  ∧ "Authentication error" ≠ "User not found".
Proof.
  apply (auth_reasons demo_env (JStr "tok-gone") UnknownIdentity).
  by apply (refused_unknown _ _ (JObj {["userId" := JStr "d1"]}) (JStr "d1")).
Defined.

(** C8 as stated fails: the missing-credential and the invalid-credential
    refusals carry the same reason. [JUndefined] is an absent token,
    ["forged"] a token that [jwt.verify] rejects. *)
Lemma missing_and_invalid_share_reason :
  refused demo_env JUndefined NoCredential
  ∧ refused demo_env (JStr "forged") BadCredential
  ∧ authenticate demo_env JUndefined = Reject "Authentication error"
  ∧ authenticate demo_env (JStr "forged") = Reject "Authentication error"
  ∧ ¬ (authenticate demo_env JUndefined ≠ authenticate demo_env (JStr "forged")).
Proof.
  split; [by constructor|]. split; [by constructor|].
  split; [done|]. split; [done|]. intros H. by apply H.
Qed.

(** ** Handshake *)

(** C1: a handshake that the middleware refuses (no credential, a credential
    failing verification, unreadable claims, a failing or empty identity
    lookup) leaves the whole state as it was; no registry entry is written
    and no room is joined; the client gets the refusal only; and as long as
    no later handshake under that connection id succeeds, every event sent
    on the connection finds no handler. *)
Theorem refused_handshake_changes_nothing env now sid token st c :
  sockets st !! sid = None →
  refused env token c →
  ∃ msg,
    handshake env now sid token st = (st, [ConnectError sid msg])
    ∧ connectedUsers (handshake env now sid token st).1 = connectedUsers st
    ∧ sockets (handshake env now sid token st).1 = sockets st
    ∧ ∀ trace now' ev,
        Forall (fun ti : Z * Input => ∀ token', ti.2 ≠ Handshake sid token') trace →
        dispatch now' sid ev (run env trace (handshake env now sid token st).1)
        = (run env trace (handshake env now sid token st).1, []).
Proof.
  intros Hfresh Href. eexists.
  rewrite (handshake_reject _ _ _ _ _ _ (authenticate_refused _ _ _ Href)).
  split; [done|]. split; [done|]. split; [done|].
  intros trace now' ev Htr. simpl. unfold dispatch.
  by rewrite (run_keeps_absent env trace st sid Hfresh Htr).
Qed.

Lemma refused_handshake_changes_nothing_witness :
  ∃ msg,
    handshake demo_env 7 1 (JStr "forged") init = (init, [ConnectError 1 msg])
    ∧ connectedUsers (handshake demo_env 7 1 (JStr "forged") init).1
      = connectedUsers init
    ∧ sockets (handshake demo_env 7 1 (JStr "forged") init).1 = sockets init
    ∧ ∀ trace now' ev,
        Forall (fun ti : Z * Input => ∀ token', ti.2 ≠ Handshake 1 token') trace →
        dispatch now' 1 ev
          (run demo_env trace (handshake demo_env 7 1 (JStr "forged") init).1)
        = (run demo_env trace (handshake demo_env 7 1 (JStr "forged") init).1, []).
Proof.
  apply (refused_handshake_changes_nothing demo_env 7 1 (JStr "forged") init
           BadCredential).
  - reflexivity.
  - by constructor.
Defined.

(** C2: after a successful handshake the registry holds exactly one entry
    under the user's id, and it is the record of the connection just
    accepted; an entry the user had before is overwritten (the count stays),
    otherwise the count grows by one; the other users' entries are
    untouched. *)
Theorem handshake_registers_newest env now sid token st u :
  authenticate env token = Accept u →
  let st' := (handshake env now sid token st).1 in
  let record := {| socketId := sid; user := u; connectedAt := now;
                   status := None |} in
  connectedUsers st' !! _id u = Some record
  ∧ entries_of (_id u) st' = [(_id u, record)]
  ∧ (∀ k, k ≠ _id u → connectedUsers st' !! k = connectedUsers st !! k)
  ∧ getConnectedUsersCount st' =
    match connectedUsers st !! _id u with
    | Some _ => getConnectedUsersCount st
    | None => S (getConnectedUsersCount st)
    end.
Proof.
  intros Ha st' record. subst st'.
  unfold entries_of, getConnectedUsersCount.
  rewrite (handshake_accept _ _ _ _ _ _ Ha), connection_registry.
  cbn [connectedUsers set_sockets]. fold record.
  assert (Hl : <[_id u := record]> (connectedUsers st) !! _id u = Some record)
    by apply lookup_insert_eq.
  split; [exact Hl|]. split; [by apply only_entry|]. split.
  - intros k Hk. by rewrite lookup_insert_ne.
  - rewrite map_size_insert. by destruct (connectedUsers st !! _id u).
Qed.

Lemma handshake_registers_newest_witness :
  let st := (handshake demo_env 1 1 (JStr "tok-a") init).1 in
  let st' := (handshake demo_env 5 2 (JStr "tok-a") st).1 in
  let record := {| socketId := 2; user := alice; connectedAt := 5;
                   status := None |} in
  connectedUsers st' !! "a1" = Some record
  ∧ entries_of "a1" st' = [("a1", record)]
  ∧ (∀ k, k ≠ "a1" → connectedUsers st' !! k = connectedUsers st !! k)
  ∧ getConnectedUsersCount st' =
    match connectedUsers st !! "a1" with
    | Some _ => getConnectedUsersCount st
    | None => S (getConnectedUsersCount st)
    end.
Proof.
  intros st.
  apply (handshake_registers_newest demo_env 5 2 (JStr "tok-a") st alice).
  reflexivity.
Defined.

(** ** Targeted delivery *)

Lemma registry_entry_socket st k r :
  registry_live st → connectedUsers st !! k = Some r →
  ∃ sock, sockets st !! socketId r = Some sock ∧ userId sock = k.
Proof.
  intros Hinv Hr. destruct (Hinv k r Hr) as (u & Hu & Hk).
  unfold identities in Hu. rewrite lookup_fmap in Hu.
  destruct (sockets st !! socketId r) as [sock|]; [|done].
  exists sock. split; [done|]. unfold userId. simpl in Hu. congruence.
Qed.

Lemma elem_of_io_to_id_room owner event data st e :
  e ∈ io_to (Own owner) event data st ↔
  ∃ s o, e = Emit s event data ∧ sockets st !! s = Some o
         ∧ if decide (s = owner) then sock_own_room o = true
           else owner ∈ sock_id_rooms o.
Proof.
  rewrite elem_of_io_to. split.
  - intros (s & -> & (o & Hs & Hin%in_id_room_spec)%elem_of_members_own).
    by exists s, o.
  - intros (s & o & -> & Hs & Hin). exists s. split; [done|].
    apply elem_of_members_own. exists o. split; [done|].
    by apply in_id_room_spec.
Qed.

Lemma receive_mapping now sid sock name data st :
  sockets st !! sid = Some sock →
  names_room name data = true →
  receive now sid name (JObj data) st =
  Handled (dispatch now sid (with_payload name data) st).1
          (dispatch now sid (with_payload name data) st).2.
Proof. intros Hs Hroom. unfold receive. simpl. by rewrite Hs, Hroom. Qed.


Lemma receive_no_payload now sid sock name arg st :
  sockets st !! sid = Some sock →
  arg = JUndefined ∨ arg = JNull →
  receive now sid name arg st = Uncaught "TypeError" st.
Proof. intros Hs [-> | ->]; unfold receive; by rewrite Hs. Qed.


(** ** Room fan-out *)





(** ** Utility functions *)

(** C10: the accessors exported to the REST layer address rooms through
    [io], without an excluded sender: [emitToUniversity] reaches every socket
    of the university room and [emitToAll] every socket of the namespace,
    whichever user caused the call, whereas the same broadcast made through
    [socket.to] by a connection skips that connection. *)
Theorem accessors_reach_every_member university event data st sid sock :
  sockets st !! sid = Some sock →
  (("university:" +:+ university) ∈ sock_rooms sock →
   Emit sid event data ∈ emitToUniversity university event data st)
  ∧ Emit sid event data ∈ emitToAll event data st
  ∧ Emit sid event data ∉
      socket_to sid (Named ("university:" +:+ university)) event data st.
Proof.
  intros Hs. split; [|split].
  - intros Hin. apply elem_of_io_to. exists sid. split; [done|].
    apply elem_of_members_named. eauto.
  - apply elem_of_io_emit. eauto.
  - intros (s & [= <-] & Hne & _)%elem_of_socket_to. done.
Qed.

Lemma campus_reachable : reachable demo_env campus.
Proof. apply reachable_run; [constructor|]. vm_compute. tauto. Qed.

Lemma orphaned_reachable : reachable demo_env orphaned.
Proof. apply reachable_run; [constructor|]. vm_compute. tauto. Qed.





Lemma accessors_reach_every_member_witness :
  Emit 1 "question_created" (str "q") ∈
    emitToUniversity "X" "question_created" (str "q") campus
  ∧ Emit 1 "question_created" (str "q") ∈
      emitToAll "question_created" (str "q") campus
  ∧ Emit 1 "question_created" (str "q") ∉
      socket_to 1 (Named ("university:" +:+ "X")) "question_created" (str "q")
        campus.
Proof.
  destruct (accessors_reach_every_member "X" "question_created" (str "q")
              campus 1 (fresh_socket alice)) as (Hroom & Hall & Hnot);
    [vm_compute; reflexivity|].
  split; [|done]. apply Hroom. vm_compute. reflexivity.
Defined.

(** ** Disconnect *)

(** C5 (as the code has it): when a connection closes, the registry has no
    entry left under its user's id, the offline notice goes to every other
    socket of the user's university room, and the count drops by exactly one
    if the registry held an entry for that user id when the connection closed;
    it is unchanged if there was none. *)
Theorem disconnect_unregisters now sid sock st :
  sockets st !! sid = Some sock →
  let st' := (close now sid st).1 in
  let out := (close now sid st).2 in
  connectedUsers st' !! userId sock = None
  ∧ (is_Some (connectedUsers st !! userId sock) →
     S (getConnectedUsersCount st') = getConnectedUsersCount st)
  ∧ (connectedUsers st !! userId sock = None →
     getConnectedUsersCount st' = getConnectedUsersCount st)
  ∧ (∀ s o, s ≠ sid → sockets st !! s = Some o →
            university_room (sock_user sock) ∈ sock_rooms o →
            Emit s "user_offline"
              (assign ∅
                 [("userId", VObjectId (userId sock));
                  ("userName", str (name (sock_user sock)))]) ∈ out)
  ∧ (sid ∉ recipients out)
  ∧ sockets st' !! sid = None.
Proof.
  intros Hs st' out. subst st' out. unfold close, getConnectedUsersCount.
  rewrite Hs. simpl.
  split; [apply lookup_delete_eq|]. split; [|split; [|split; [|split]]].
  - intros Hsome. rewrite map_size_delete_Some by done.
    pose proof (map_size_ne_0_lookup_2 _ _ Hsome). lia.
  - intros Hnone. by rewrite map_size_delete_None.
  - intros s o Hne Ho Hin. right.
    apply (socket_to_reaches_others _ _ _ _ _ _ o); [done| |done].
    simpl. by rewrite lookup_delete_ne.
  - apply recipients_socket_to.
  - apply lookup_delete_eq.
Qed.

Lemma disconnect_unregisters_witness :
  connectedUsers (close 9 2 campus).1 !! "b1" = None
  ∧ S (getConnectedUsersCount (close 9 2 campus).1) = getConnectedUsersCount campus
  ∧ Emit 1 "user_offline"
      (assign ∅ [("userId", VObjectId "b1"); ("userName", str "Bob")])
    ∈ (close 9 2 campus).2.
Proof.
  destruct (disconnect_unregisters 9 2 (fresh_socket bob) campus)
    as (Hgone & Hcount & _ & Hroom & _); [vm_compute; reflexivity|].
  split; [exact Hgone|]. split.
  - apply Hcount. vm_compute. eauto.
  - apply (Hroom 1 (fresh_socket alice)); [done|vm_compute; reflexivity|].
    vm_compute. reflexivity.
Defined.

(** C5 as stated fails for a user with two connections: after Alice's first
    connection has closed, her second connection is live but has no registry
    entry, and closing it leaves the count as it was. *)
Lemma second_disconnect_keeps_count :
  reachable demo_env orphaned
  ∧ sockets orphaned !! 2 = Some (fresh_socket alice)
  ∧ getConnectedUsersCount (close 9 2 orphaned).1 = getConnectedUsersCount orphaned
  ∧ S (getConnectedUsersCount (close 9 2 orphaned).1)
    ≠ getConnectedUsersCount orphaned.
Proof.
  split; [apply orphaned_reachable|]. split; [vm_compute; reflexivity|].
  split; [vm_compute; reflexivity|]. vm_compute. discriminate.
Qed.

(** ** Status updates *)

(** C6 (as the code has it): a [status_update] with payload [s] from an
    accepted connection of user A is broadcast as [user_status_changed], with
    A's id and name and [s], to the other sockets of A's university room. If
    the registry holds an entry for A, afterwards that entry has status [s]
    and its other fields are as before; if it holds none, none is created.
    No other entry changes, and the socket table is untouched. *)
Theorem status_update_recorded now sid sock s st :
  sockets st !! sid = Some sock →
  let st' := (dispatch now sid (status_update s) st).1 in
  let out := (dispatch now sid (status_update s) st).2 in
  (∀ r, connectedUsers st !! userId sock = Some r →
        ∃ r', connectedUsers st' !! userId sock = Some r'
              ∧ status r' = Some s
              ∧ socketId r' = socketId r ∧ user r' = user r
              ∧ connectedAt r' = connectedAt r)
  ∧ (connectedUsers st !! userId sock = None →
     connectedUsers st' !! userId sock = None)
  ∧ (∀ k, k ≠ userId sock → connectedUsers st' !! k = connectedUsers st !! k)
  ∧ sockets st' = sockets st
  ∧ (∀ t o, t ≠ sid → sockets st !! t = Some o →
            university_room (sock_user sock) ∈ sock_rooms o →
            Emit t "user_status_changed"
              (assign ∅
                 [("userId", VObjectId (userId sock));
                  ("userName", str (name (sock_user sock)));
                  ("status", VJson s)]) ∈ out)
  ∧ sid ∉ recipients out.
Proof.
  intros Hs st' out. subst st' out. unfold dispatch. rewrite Hs. simpl.
  assert (Hsock : sockets
            match connectedUsers st !! userId sock with
            | Some userData =>
                set_connectedUsers
                  (insert (userId sock) (with_status userData s)) st
            | None => st
            end = sockets st)
    by (by destruct (connectedUsers st !! userId sock)).
  split; [|split; [|split; [|split; [|split]]]].
  - intros r Hr. rewrite Hr. simpl. rewrite lookup_insert_eq.
    by exists (with_status r s).
  - intros Hn. by rewrite Hn.
  - intros k Hk. destruct (connectedUsers st !! userId sock); [|done].
    simpl. by rewrite lookup_insert_ne.
  - exact Hsock.
  - intros t o Hne Ho Hin.
    apply (socket_to_reaches_others _ _ _ _ _ _ o); [done| |done].
    by rewrite Hsock.
  - apply recipients_socket_to.
Qed.

Lemma status_update_recorded_witness :
  (∃ r', connectedUsers (dispatch 9 1 (status_update (JStr "busy")) campus).1
           !! "a1" = Some r'
         ∧ status r' = Some (JStr "busy") ∧ socketId r' = 1)
  ∧ Emit 2 "user_status_changed"
      (assign ∅
         [("userId", VObjectId "a1"); ("userName", str "Alice Ng");
          ("status", VJson (JStr "busy"))])
    ∈ (dispatch 9 1 (status_update (JStr "busy")) campus).2.
Proof.
  destruct (status_update_recorded 9 1 (fresh_socket alice) (JStr "busy") campus)
    as (Hrec & _ & _ & _ & Hroom & _); [vm_compute; reflexivity|].
  split.
  - destruct (Hrec {| socketId := 1; user := alice; connectedAt := 1;
                      status := None |}) as (r' & Hr' & Hst & Hid & _);
      [vm_compute; reflexivity|].
    exists r'. split; [exact Hr'|]. split; [exact Hst|exact Hid].
  - apply (Hroom 2 (fresh_socket bob)); [done|vm_compute; reflexivity|].
    vm_compute. reflexivity.
Defined.

(** C6 as stated fails for a connected user without a registry entry: Alice's
    second connection, live after her first one closed, sends [status_update]
    "busy" and the registry still has no entry for her. *)
Lemma orphaned_status_update_not_recorded :
  reachable demo_env orphaned
  ∧ sockets orphaned !! 2 = Some (fresh_socket alice)
  ∧ connectedUsers (dispatch 9 2 (status_update (JStr "busy")) orphaned).1
      !! "a1" = None
  ∧ ¬ ∃ r, connectedUsers (dispatch 9 2 (status_update (JStr "busy")) orphaned).1
             !! "a1" = Some r
           ∧ status r = Some (JStr "busy").
Proof.
  split; [apply orphaned_reachable|]. split; [vm_compute; reflexivity|].
  assert (H : connectedUsers
                (dispatch 9 2 (status_update (JStr "busy")) orphaned).1
                !! "a1" = None) by (vm_compute; reflexivity).
  split; [exact H|]. intros (r & Hr & _). congruence.
Qed.

(** ** Who writes the registry *)

(** C7 (as the code has it): among the application events, [status_update]
    is the one that writes the registry, and it rewrites at most the entry of
    the sender's user id, to the same record with the new status. Every other
    application event leaves the registry map as it was. *)
Theorem registry_writers now sid ev st :
  match ev with
  | status_update s =>
      ∀ k, connectedUsers (dispatch now sid ev st).1 !! k
             = connectedUsers st !! k
           ∨ ∃ sock r, sockets st !! sid = Some sock ∧ k = userId sock
                       ∧ connectedUsers st !! k = Some r
                       ∧ connectedUsers (dispatch now sid ev st).1 !! k
                         = Some (with_status r s)
  | _ => connectedUsers (dispatch now sid ev st).1 = connectedUsers st
  end.
Proof.
  unfold dispatch. destruct (sockets st !! sid) as [sock|] eqn:Hs.
  - destruct ev; try (by apply on_event_registry).
    intros k. simpl.
    destruct (connectedUsers st !! userId sock) as [r|] eqn:Hr; [|by left].
    simpl. destruct (decide (userId sock = k)) as [<-|Hne].
    + right. exists sock, r. by rewrite lookup_insert_eq.
    + left. by rewrite lookup_insert_ne.
  - destruct ev; try done. by left.
Qed.

(** C7 as stated fails: a [status_update] is an application event and it
    changes the registry. *)
Lemma status_update_writes_registry :
  sockets campus !! 1 = Some (fresh_socket alice)
  ∧ connectedUsers (dispatch 9 1 (status_update (JStr "busy")) campus).1
    ≠ connectedUsers campus.
Proof.
  split; [vm_compute; reflexivity|]. intros H.
  apply (f_equal (fun m : gmap string ConnRecord => status <$> m !! "a1")) in H.
  vm_compute in H. discriminate.
Qed.

(** ** Stamped fields *)

Lemma agree_field d1 d2 k :
  agree_off_stamp d1 d2 → k ∉ stamp_keys → field d1 k = field d2 k.
Proof. intros H Hk. unfold field. by rewrite (H k Hk). Qed.

Lemma spread_agree d1 d2 k :
  agree_off_stamp d1 d2 →
  k ≠ "author" → k ≠ "authorInitial" → k ≠ "timestamp" →
  spread d1 !! k = spread d2 !! k.
Proof.
  intros H Ha Hi Ht. unfold spread. rewrite !lookup_fmap, (H k); [done|].
  off_stamp.
Qed.

Lemma stamped_question_agree now u d1 d2 :
  agree_off_stamp d1 d2 →
  assign (spread d1)
    [("author", str (name u)); ("authorInitial", str (initials u));
     ("university", str (university u)); ("timestamp", VDate now)]
  = assign (spread d2)
      [("author", str (name u)); ("authorInitial", str (initials u));
       ("university", str (university u)); ("timestamp", VDate now)].
Proof.
  intros H. unfold assign. simpl. f_equal. apply map_eq. intros k.
  destruct (decide (k = "timestamp")) as [->|Ht]; [by rewrite !lookup_insert_eq|].
  rewrite !(lookup_insert_ne _ "timestamp") by done.
  destruct (decide (k = "university")) as [->|Hu]; [by rewrite !lookup_insert_eq|].
  rewrite !(lookup_insert_ne _ "university") by done.
  destruct (decide (k = "authorInitial")) as [->|Hi]; [by rewrite !lookup_insert_eq|].
  rewrite !(lookup_insert_ne _ "authorInitial") by done.
  destruct (decide (k = "author")) as [->|Ha]; [by rewrite !lookup_insert_eq|].
  rewrite !(lookup_insert_ne _ "author") by done.
  by apply spread_agree.
Qed.

Lemma stamped_answer_agree now u d1 d2 :
  agree_off_stamp d1 d2 →
  assign (spread d1)
    [("author", str (name u)); ("authorInitial", str (initials u));
     ("timestamp", VDate now)]
  = assign (spread d2)
      [("author", str (name u)); ("authorInitial", str (initials u));
       ("timestamp", VDate now)].
Proof.
  intros H. unfold assign. simpl. f_equal. apply map_eq. intros k.
  destruct (decide (k = "timestamp")) as [->|Ht]; [by rewrite !lookup_insert_eq|].
  rewrite !(lookup_insert_ne _ "timestamp") by done.
  destruct (decide (k = "authorInitial")) as [->|Hi]; [by rewrite !lookup_insert_eq|].
  rewrite !(lookup_insert_ne _ "authorInitial") by done.
  destruct (decide (k = "author")) as [->|Ha]; [by rewrite !lookup_insert_eq|].
  rewrite !(lookup_insert_ne _ "author") by done.
  by apply spread_agree.
Qed.

Lemma on_new_question_agree now sid sock d1 d2 st :
  agree_off_stamp d1 d2 →
  on_new_question now sid sock d1 st = on_new_question now sid sock d2 st.
Proof.
  intros H. unfold on_new_question.
  rewrite (stamped_question_agree now (sock_user sock) d1 d2 H).
  rewrite (agree_field d1 d2 "id" H), (agree_field d1 d2 "title" H);
    [done|off_stamp|off_stamp].
Qed.

Lemma on_new_answer_agree now sid sock d1 d2 st :
  agree_off_stamp d1 d2 →
  on_new_answer now sid sock d1 st = on_new_answer now sid sock d2 st.
Proof.
  intros H. unfold on_new_answer, question_room.
  rewrite (stamped_answer_agree now (sock_user sock) d1 d2 H).
  rewrite (agree_field d1 d2 "questionId" H); [done|off_stamp].
Qed.

Lemma on_live_chat_agree now sid sock d1 d2 st :
  agree_off_stamp d1 d2 →
  on_live_chat now sid sock d1 st = on_live_chat now sid sock d2 st.
Proof.
  intros H. unfold on_live_chat.
  rewrite (agree_field d1 d2 "sessionId" H), (agree_field d1 d2 "message" H);
    [done|off_stamp|off_stamp].
Qed.

(** C9: the stamped properties are the server's. Two [new_question] (or
    [new_answer], or [live_chat]) payloads that differ at most in [author],
    [authorInitial] and [timestamp] produce the same state and the same
    packets; and in every packet relayed for such an event (the
    [question_trending] notice carries none of the three) [author] is the
    sender's name, [authorInitial] the sender's initials and [timestamp] the
    server's time, whatever the payload said. *)
Theorem stamps_not_spoofable now sid sock d1 d2 st :
  sockets st !! sid = Some sock →
  agree_off_stamp d1 d2 →
  let u := sock_user sock in
  (dispatch now sid (new_question d1) st = dispatch now sid (new_question d2) st
   ∧ dispatch now sid (new_answer d1) st = dispatch now sid (new_answer d2) st
   ∧ dispatch now sid (live_chat d1) st = dispatch now sid (live_chat d2) st)
  ∧ ∀ ev dest event fields,
      ev = new_question d1 ∨ ev = new_answer d1 ∨ ev = live_chat d1 →
      event ≠ "question_trending" →
      Emit dest event (VObject fields) ∈ (dispatch now sid ev st).2 →
      fields !! "author" = Some (str (name u))
      ∧ fields !! "authorInitial" = Some (str (initials u))
      ∧ fields !! "timestamp" = Some (VDate now).
Proof.
  intros Hs H u. unfold dispatch. rewrite Hs. simpl. split.
  - split; [by apply on_new_question_agree|].
    split; [by apply on_new_answer_agree|by apply on_live_chat_agree].
  - intros ev dest event fields [ -> | [ -> | -> ] ] Hev; simpl.
    + intros [Hin|Hin]%elem_of_app;
        apply elem_of_socket_to in Hin as (s & Heq & _);
        injection Heq as Hto Hevent Hf; [|by subst event].
      read_stamp.
    + intros (s & Heq & _)%elem_of_socket_to.
      injection Heq as Hto Hevent Hf.
      read_stamp.
    + intros (s & Heq & _)%elem_of_socket_to.
      injection Heq as Hto Hevent Hf.
      read_stamp.
Qed.

Lemma stamps_not_spoofable_witness :
  dispatch 9 1 (new_question honest_question) campus
  = dispatch 9 1 (new_question forged_question) campus.
Proof.
  apply (stamps_not_spoofable 9 1 (fresh_socket alice) honest_question
           forged_question campus).
  - vm_compute. reflexivity.
  - intros k Hk.
    assert (forged_question =
            <["author" := JStr "Bob"]>
              (<["authorInitial" := JStr "B"]>
                 (<["timestamp" := JNum 0]> honest_question))) as ->
      by (vm_compute; reflexivity).
    unfold stamp_keys in Hk. rewrite !not_elem_of_cons in Hk.
    destruct Hk as (H1 & H2 & H3 & _).
    by rewrite !lookup_insert_ne by done.
Defined.

(** ** Scenarios *)

Example initials_two_words : initials alice = "AN".
Proof. reflexivity. Qed.

Example split_keeps_empty_parts : split " "%char "a  b" = ["a"; EmptyString; "b"].
Proof. reflexivity. Qed.

Example to_str_array : to_str (JArr [JNum 42; JNull; JStr "q"]) = "42,,q".
Proof. reflexivity. Qed.

Example question_room_of_number :
  question_room {["questionId" := JNum 7]} = Named "question:7".
Proof. reflexivity. Qed.

(** Alice and Bob (university X) and Carol (university Y) are connected;
    Alice posts a question titled "T": Bob gets the stamped [new_question],
    Bob and Carol get the [question_trending] notice, Alice gets nothing. *)
Example question_posted :
  dispatch 9 1 (new_question {["title" := JStr "T"]}) campus =
  (campus,
   [Emit 2 "new_question"
      (assign ∅
         [("title", str "T"); ("author", str "Alice Ng");
          ("authorInitial", str "AN"); ("university", str "X");
          ("timestamp", VDate 9)]);
    Emit 2 "question_trending"
      (assign ∅
         [("questionId", VJson JUndefined); ("title", str "T");
          ("university", str "X")]);
    Emit 3 "question_trending"
      (assign ∅
         [("questionId", VJson JUndefined); ("title", str "T");
          ("university", str "X")])]).
Proof. vm_compute. reflexivity. Qed.

(** Alice sets her status to "busy": her registry entry records it and Bob,
    in the same university room, is told. *)
Example status_busy :
  let result := dispatch 9 1 (status_update (JStr "busy")) campus in
  status <$> connectedUsers result.1 !! "a1" = Some (Some (JStr "busy"))
  ∧ result.2 =
    [Emit 2 "user_status_changed"
       (assign ∅
          [("userId", VObjectId "a1"); ("userName", str "Alice Ng");
           ("status", VJson (JStr "busy"))])].
Proof. split; vm_compute; reflexivity. Qed.

(** A second handshake of Alice replaces her entry; [emitToUser] then reaches
    the newer connection only. *)
Example reconnect_overwrites :
  let st := (handshake demo_env 5 4 (JStr "tok-a") campus).1 in
  getConnectedUsersCount st = 3
  ∧ socketId <$> connectedUsers st !! "a1" = Some 4
  ∧ emitToUser "a1" "ping" (str "x") st = [Emit 4 "ping" (str "x")].
Proof. repeat split; vm_compute; reflexivity. Qed.

(** The three refusals of the middleware, and an accepted token. *)
Example middleware_outcomes :
  authenticate demo_env JUndefined = Reject "Authentication error"
  ∧ authenticate demo_env (JStr EmptyString) = Reject "Authentication error"
  ∧ authenticate demo_env (JStr "forged") = Reject "Authentication error"
  ∧ authenticate demo_env (JStr "tok-gone") = Reject "User not found"
  ∧ authenticate demo_env (JStr "tok-b") = Accept bob.
Proof. repeat split; reflexivity. Qed.

(** * Further properties of the handler *)

(** ** What the connection callback leaves behind *)

(** X1: a successful handshake puts the new connection in the namespace with
    the resolved identity and in exactly three rooms: the room named by its
    own id, its university room and the global room; no other socket is
    touched and the only effect is the detached last-seen update. *)
Theorem accepted_handshake_joins_rooms env now sid token st u :
  authenticate env token = Accept u →
  let st' := (handshake env now sid token st).1 in
  sockets st' !! sid = Some (fresh_socket u)
  ∧ sock_user (fresh_socket u) = u
  ∧ (∀ r : Room,
       sid ∈ members r st'
       ↔ r = Own sid ∨ r = Named (university_room u) ∨ r = Named "global")
  ∧ (∀ room, room ∈ sock_rooms (fresh_socket u)
              ↔ room = university_room u ∨ room = "global")
  ∧ (∀ s, s ≠ sid → sockets st' !! s = sockets st !! s)
  ∧ (handshake env now sid token st).2 = [TouchLastSeen (_id u) now].
Proof.
  intros Ha st'. subst st'. rewrite (handshake_accept _ _ _ _ _ _ Ha).
  assert (Hnew : sockets (connection now sid u
                            (set_sockets (insert sid (new_socket u)) st)).1
                 !! sid = Some (fresh_socket u)).
  { unfold connection, socket_join. simpl.
    rewrite !lookup_alter_eq, lookup_insert_eq. reflexivity. }
  assert (Hrooms : ∀ room, room ∈ sock_rooms (fresh_socket u)
                           ↔ room = university_room u ∨ room = "global").
  { intros room. unfold fresh_socket. simpl.
    rewrite !elem_of_union, !elem_of_singleton, elem_of_empty. tauto. }
  split; [exact Hnew|]. split; [reflexivity|].
  split; [|split; [exact Hrooms|split]].
  - intros [owner|room].
    + rewrite elem_of_members_own. split.
      * intros (o & Ho & Hin%in_id_room_spec). rewrite Hnew in Ho.
        injection Ho as <-. destruct (decide (sid = owner)) as [->|Hne].
        -- by left.
        -- simpl in Hin. by apply elem_of_empty in Hin.
      * intros [[= ->]|[?|?]]; try discriminate.
        exists (fresh_socket u). split; [exact Hnew|].
        apply in_id_room_spec. by destruct (decide (sid = sid)).
    + rewrite elem_of_members_named. split.
      * intros (o & Ho & Hin). rewrite Hnew in Ho. injection Ho as <-.
        apply Hrooms in Hin as [->| ->]; [right; by left|right; by right].
      * intros [?|[[= ->]|[= ->]]]; try discriminate;
          (exists (fresh_socket u); split; [exact Hnew|]; apply Hrooms);
          [by left|by right].
  - unfold connection, socket_join. simpl.
    intros s Hs. by rewrite !lookup_alter_ne, lookup_insert_ne.
  - reflexivity.
Qed.

Lemma accepted_handshake_joins_rooms_witness :
  let st' := (handshake demo_env 4 4 (JStr "tok-c") campus).1 in
  sockets st' !! 4 = Some (fresh_socket carol)
  ∧ sock_user (fresh_socket carol) = carol
  ∧ (∀ r : Room,
       4 ∈ members r st'
       ↔ r = Own 4 ∨ r = Named (university_room carol) ∨ r = Named "global")
  ∧ (∀ room, room ∈ sock_rooms (fresh_socket carol)
              ↔ room = university_room carol ∨ room = "global")
  ∧ (∀ s, s ≠ 4 → sockets st' !! s = sockets campus !! s)
  ∧ (handshake demo_env 4 4 (JStr "tok-c") campus).2
    = [TouchLastSeen (_id carol) 4].
Proof.
  apply (accepted_handshake_joins_rooms demo_env 4 4 (JStr "tok-c") campus carol).
  reflexivity.
Defined.

(** X2: connecting and disconnecting is a round trip on the state: if the
    connection id is unused and the user has no registry entry, a successful
    handshake followed by the close of that connection gives back the state
    the server had before. *)
Theorem connect_then_close_restores env now now' sid token st u :
  authenticate env token = Accept u →
  sockets st !! sid = None →
  connectedUsers st !! _id u = None →
  (close now' sid (handshake env now sid token st).1).1 = st.
Proof.
  intros Ha Hs Hu. rewrite (handshake_accept _ _ _ _ _ _ Ha).
  unfold close, connection, socket_join. simpl.
  rewrite !lookup_alter_eq, lookup_insert_eq. simpl.
  unfold set_connectedUsers, set_sockets. simpl.
  rewrite !delete_alter_eq, delete_insert_id by done.
  unfold userId. simpl. rewrite delete_insert_id by done.
  by destruct st.
Qed.

Lemma connect_then_close_restores_witness :
  (close 9 4 (handshake demo_env 4 4 (JStr "tok-a") init).1).1 = init.
Proof.
  apply (connect_then_close_restores demo_env 4 9 4 (JStr "tok-a") init alice);
    reflexivity.
Defined.

(** X3: no step of the server writes a packet to a connection that is not
    in the namespace: every recipient of a packet produced by a handshake, an
    event or a close is a live socket, before and after that step. *)
Theorem packets_only_to_live_sockets env now i st s :
  s ∈ recipients (step env now i st).2 →
  is_Some (sockets st !! s) ∧ is_Some (sockets (step env now i st).1 !! s).
Proof.
  assert (Hto : ∀ self r event data st0,
            s ∈ recipients (socket_to self r event data st0) →
            s ≠ self ∧ is_Some (sockets st0 !! s)).
  { intros self r event data st0. unfold socket_to.
    rewrite recipients_emit_each.
    intros [Hne Hm]%list_elem_of_filter. split; [done|].
    by apply (members_live r). }
  assert (Hio : ∀ r event data st0,
            s ∈ recipients (io_to r event data st0) →
            is_Some (sockets st0 !! s)).
  { intros r event data st0. unfold io_to. rewrite recipients_emit_each.
    apply members_live. }
  destruct i as [sid token|sid ev|sid]; unfold step.
  - unfold handshake. destruct (authenticate env token); simpl;
      by intros ?%elem_of_nil.
  - unfold dispatch. destruct (sockets st !! sid) as [sock|] eqn:Hs;
      [|by intros ?%elem_of_nil].
    destruct ev; simpl;
      try (by intros ?%elem_of_nil);
      try (intros [_ H]%Hto; by split).
    + rewrite recipients_app.
      intros [[_ H]%Hto|[_ H]%Hto]%elem_of_app; by split.
    + unfold on_new_connection.
      destruct (get_user _ _); simpl; [|by intros ?%elem_of_nil].
      intros H%Hio. by split.
    + unfold on_private_message.
      destruct (get_user _ _); simpl; [|by intros ?%elem_of_nil].
      intros H%Hio. by split.
    + intros [_ H]%Hto.
      destruct (connectedUsers st !! userId sock); by split.
  - unfold close. destruct (sockets st !! sid) as [sock|] eqn:Hs;
      [|by intros ?%elem_of_nil].
    simpl. intros [Hne H]%Hto. simpl in H.
    rewrite lookup_delete_ne in H by done. by split;
      [|simpl; rewrite lookup_delete_ne by done].
Qed.

Lemma packets_only_to_live_sockets_witness :
  is_Some (sockets campus !! 2)
  ∧ is_Some (sockets (step demo_env 9 (Close 1) campus).1 !! 2).
Proof.
  apply (packets_only_to_live_sockets demo_env 9 (Close 1) campus 2).
  vm_compute. left.
Defined.

(** ** The registry and the namespace *)

Lemma step_registry_consistent env now i st :
  registry_consistent st → admissible i st →
  registry_consistent (step env now i st).1.
Proof.
  intros Hinv Hadm. destruct i as [sid token|sid ev|sid]; unfold step.
  - destruct (authenticate env token) as [u|msg] eqn:Ha;
      [rewrite (handshake_accept _ _ _ _ _ _ Ha)
      |by rewrite (handshake_reject _ _ _ _ _ _ Ha)].
    simpl in Hadm. intros k r. unfold connection, socket_join. simpl.
    destruct (decide (_id u = k)) as [<-|Hne].
    + rewrite lookup_insert_eq. intros [= <-]. simpl.
      rewrite !lookup_alter_eq, lookup_insert_eq. simpl. eauto.
    + rewrite lookup_insert_ne by done. intros Hr.
      destruct (Hinv k r Hr) as (sock & Hs & Hu & Hk).
      assert (socketId r ≠ sid) by congruence.
      exists sock. by rewrite !lookup_alter_ne, lookup_insert_ne.
  - unfold dispatch. destruct (sockets st !! sid) as [sock|] eqn:Hs; [|done].
    assert (Halter : ∀ f k r,
              (∀ x, sock_user (f x) = sock_user x) →
              connectedUsers st !! k = Some r →
              ∃ sock', alter f sid (sockets st) !! socketId r = Some sock'
                       ∧ sock_user sock' = user r ∧ _id (user r) = k).
    { intros f k r Hf Hr. destruct (Hinv k r Hr) as (sock' & Hs' & Hu & Hk).
      destruct (decide (sid = socketId r)) as [->|Hne].
      - exists (f sock'). rewrite lookup_alter_eq, Hs'. simpl.
        by rewrite Hf.
      - exists sock'. by rewrite lookup_alter_ne. }
    destruct ev; simpl; try exact Hinv.
    + unfold on_new_connection. by destruct (get_user _ _).
    + unfold on_private_message. by destruct (get_user _ _).
    + destruct roomName as [owner|room]; intros k r; apply Halter;
        [apply enter_id_room_user|done].
    + destruct roomName as [owner|room]; intros k r; apply Halter;
        [apply quit_id_room_user|done].
    + destruct (connectedUsers st !! userId sock) as [userData|] eqn:Hu;
        [|exact Hinv].
      intros k r. simpl. destruct (decide (userId sock = k)) as [<-|Hne].
      * rewrite lookup_insert_eq. intros [= <-]. simpl. by apply Hinv.
      * rewrite lookup_insert_ne by done. apply Hinv.
  - unfold close. destruct (sockets st !! sid) as [sock|] eqn:Hs; [|done].
    intros k r. simpl. intros [Hne Hr]%lookup_delete_Some.
    destruct (Hinv k r Hr) as (sock' & Hs' & Hu & Hk).
    exists sock'. split; [|done]. rewrite lookup_delete_ne; [done|].
    intros Heq. unfold userId in Hne. congruence.
Qed.

Lemma reachable_registry_consistent env st :
  reachable env st → registry_consistent st.
Proof.
  induction 1 as [|now i st _ IH Hadm].
  - intros k r. unfold init; simpl. by rewrite lookup_empty.
  - by apply step_registry_consistent.
Qed.

(** X4: in every state the server can reach, a registry entry is filed under
    the id of the user document it holds, names a live socket carrying that
    same document, and two different entries never name the same connection;
    so there are never more registered users than live connections. *)
Theorem registry_tracks_sockets env st :
  reachable env st →
  (∀ k r, connectedUsers st !! k = Some r →
          _id (user r) = k
          ∧ ∃ sock, sockets st !! socketId r = Some sock
                    ∧ sock_user sock = user r)
  ∧ (∀ k1 k2 r1 r2,
       connectedUsers st !! k1 = Some r1 → connectedUsers st !! k2 = Some r2 →
       socketId r1 = socketId r2 → k1 = k2)
  ∧ (getConnectedUsersCount st ≤ size (sockets st))%nat
  ∧ List.length (getConnectedUsers st) = getConnectedUsersCount st.
Proof.
  intros Hreach. pose proof (reachable_registry_consistent _ _ Hreach) as Hinv.
  assert (Hinj : ∀ k1 k2 r1 r2,
             connectedUsers st !! k1 = Some r1 →
             connectedUsers st !! k2 = Some r2 →
             socketId r1 = socketId r2 → k1 = k2).
  { intros k1 k2 r1 r2 H1 H2 Heq.
    destruct (Hinv k1 r1 H1) as (s1 & Hs1 & Hu1 & Hk1).
    destruct (Hinv k2 r2 H2) as (s2 & Hs2 & Hu2 & Hk2).
    rewrite Heq in Hs1. congruence. }
  split; [|split; [exact Hinj|split]].
  - intros k r Hr. destruct (Hinv k r Hr) as (sock & Hs & Hu & Hk). eauto.
  - unfold getConnectedUsersCount.
    rewrite <-length_map_to_list, <-(length_map_to_list (sockets st)).
    rewrite <-(length_fmap (fun kr : string * ConnRecord => socketId kr.2)),
      <-(length_fmap fst (map_to_list (sockets st))).
    apply submseteq_length, NoDup_submseteq.
    + apply NoDup_fmap_2_strong; [|apply NoDup_map_to_list].
      intros [k1 r1] [k2 r2] H1%elem_of_map_to_list H2%elem_of_map_to_list Heq.
      simpl in Heq. assert (k1 = k2) as -> by eauto. congruence.
    + intros sid ([k r] & -> & Hr%elem_of_map_to_list)%list_elem_of_fmap.
      destruct (Hinv k r Hr) as (sock & Hs & _). simpl.
      apply list_elem_of_fmap. exists (socketId r, sock). split; [done|].
      by apply elem_of_map_to_list.
  - unfold getConnectedUsers, getConnectedUsersCount.
    by rewrite length_fmap, length_map_to_list.
Qed.

Lemma registry_tracks_sockets_witness :
  (∀ k r, connectedUsers campus !! k = Some r →
          _id (user r) = k
          ∧ ∃ sock, sockets campus !! socketId r = Some sock
                    ∧ sock_user sock = user r)
  ∧ (∀ k1 k2 r1 r2,
       connectedUsers campus !! k1 = Some r1 →
       connectedUsers campus !! k2 = Some r2 →
       socketId r1 = socketId r2 → k1 = k2)
  ∧ (getConnectedUsersCount campus ≤ size (sockets campus))%nat
  ∧ List.length (getConnectedUsers campus) = getConnectedUsersCount campus.
Proof.
  apply (registry_tracks_sockets demo_env campus).
  apply reachable_run; [constructor|]. vm_compute. tauto.
Defined.

(** ** Targeted delivery from the REST layer and for connection requests *)

(** X5: in every reachable state, for a user in the registry, the
    connection recorded for the user is a live connection of that user, and
    [emitToUser] writes one packet, carrying the caller's event name and
    data unchanged, to every socket in the room named by that connection's
    id and to no other; these are exactly one packet, to the recorded
    connection, when that room has not been joined by another socket nor
    left by its owner. For a user id without a registry entry it writes
    nothing. *)
Theorem emitToUser_delivery env uid event data st :
  reachable env st →
  (∀ userData,
     connectedUsers st !! uid = Some userData →
     (∃ sock, sockets st !! socketId userData = Some sock
              ∧ userId sock = uid)
     ∧ (∀ e, e ∈ emitToUser uid event data st ↔
             ∃ s o, e = Emit s event data
                    ∧ sockets st !! s = Some o
                    ∧ if decide (s = socketId userData)
                      then sock_own_room o = true
                      else socketId userData ∈ sock_id_rooms o)
     ∧ NoDup (emitToUser uid event data st)
     ∧ ((∀ s o, sockets st !! s = Some o →
                if decide (s = socketId userData)
                then sock_own_room o = true
                else socketId userData ∉ sock_id_rooms o) →
        emitToUser uid event data st
        = [Emit (socketId userData) event data]))
  ∧ (connectedUsers st !! uid = None → emitToUser uid event data st = []).
Proof.
  intros Hreach. unfold emitToUser. split.
  - intros userData Hu. rewrite Hu.
    destruct (registry_entry_socket st uid userData
                (reachable_registry_live _ _ Hreach) Hu) as (sock & Hs & Hid).
    split; [by exists sock|]. split; [|split].
    + intros e. apply elem_of_io_to_id_room.
    + apply emit_each_NoDup, members_NoDup.
    + intros Hroom. unfold io_to.
      by rewrite (members_own_untouched _ _ _ Hs Hroom).
  - by intros ->.
Qed.

Lemma emitToUser_delivery_witness :
  emitToUser "b1" "question_created" (str "q") campus
  = [Emit 2 "question_created" (str "q")]
  ∧ ∀ e, e ∈ emitToUser "b1" "question_created" (str "q") campus_overheard ↔
         ∃ s o, e = Emit s "question_created" (str "q")
                ∧ sockets campus_overheard !! s = Some o
                ∧ if decide (s = 2) then sock_own_room o = true
                  else 2 ∈ sock_id_rooms o.
Proof.
  split.
  - destruct (emitToUser_delivery demo_env "b1" "question_created" (str "q")
                campus campus_reachable) as (Hpresent & _).
    destruct (Hpresent {| socketId := 2; user := bob; connectedAt := 2;
                          status := None |}) as (_ & _ & _ & Hone);
      [vm_compute; reflexivity|].
    apply Hone. intros s o Hs. each_socket Hs.
  - destruct (emitToUser_delivery demo_env "b1" "question_created" (str "q")
                campus_overheard) as (Hpresent & _).
    + apply (reach_step demo_env 4 (Event 3 (join_room (Own 2))) campus);
        [apply campus_reachable|exact I].
    + destruct (Hpresent {| socketId := 2; user := bob; connectedAt := 2;
                            status := None |}) as (_ & Hall & _);
        [vm_compute; reflexivity|].
      exact Hall.
Defined.

(** X6: in every reachable state a [new_connection] whose payload is a
    mapping never raises and never changes the state. When [targetUserId]
    is the id of a user in the registry, the handler writes one
    [connection_request] packet, with the sender's name and id and the
    message of the payload (and no timestamp), to every socket in the room
    named by the id of the connection recorded for that user, and to no
    other; these are exactly one packet, to the recorded connection, when
    that room has not been joined by another socket nor left by its owner.
    When [targetUserId] is missing, not a string, or not in the registry,
    nothing is sent. A payload that is [undefined] or [null] makes the
    listener raise before it has sent anything. *)
Theorem new_connection_delivery env now sid sock data st :
  reachable env st →
  sockets st !! sid = Some sock →
  let packet :=
    assign ∅
      [("from", str (name (sock_user sock)));
       ("fromId", VObjectId (userId sock));
       ("message", VJson (field data "message"))] in
  (∀ t target,
     field data "targetUserId" = JStr t →
     connectedUsers st !! t = Some target →
     (∃ tsock, sockets st !! socketId target = Some tsock ∧ userId tsock = t)
     ∧ (∃ out,
          receive now sid NewConnection (JObj data) st = Handled st out
          ∧ NoDup out
          ∧ ∀ e, e ∈ out ↔
                 ∃ s o, e = Emit s "connection_request" packet
                        ∧ sockets st !! s = Some o
                        ∧ if decide (s = socketId target)
                          then sock_own_room o = true
                          else socketId target ∈ sock_id_rooms o)
     ∧ ((∀ s o, sockets st !! s = Some o →
                if decide (s = socketId target) then sock_own_room o = true
                else socketId target ∉ sock_id_rooms o) →
        receive now sid NewConnection (JObj data) st
        = Handled st [Emit (socketId target) "connection_request" packet]))
  ∧ ((∀ t, field data "targetUserId" = JStr t →
           connectedUsers st !! t = None) →
     receive now sid NewConnection (JObj data) st = Handled st [])
  ∧ (∀ arg, arg = JUndefined ∨ arg = JNull →
       receive now sid NewConnection arg st = Uncaught "TypeError" st).
Proof.
  intros Hreach Hs packet. subst packet.
  split; [|split]; [| |intros arg Harg; by apply (receive_no_payload _ _ sock)].
  - intros t target Hfield Hreg.
    rewrite (receive_mapping now sid sock NewConnection data st Hs eq_refl).
    unfold dispatch. rewrite Hs. simpl. unfold on_new_connection, get_user.
    rewrite Hfield, Hreg. simpl.
    destruct (registry_entry_socket st t target
                (reachable_registry_live _ _ Hreach) Hreg)
      as (tsock & Ht & Hid).
    split; [by exists tsock|]. split.
    + eexists. split; [done|].
      split; [apply emit_each_NoDup, members_NoDup|].
      intros e. apply elem_of_io_to_id_room.
    + intros Hroom. f_equal. unfold io_to.
      by rewrite (members_own_untouched _ _ _ Ht Hroom).
  - intros Habsent. rewrite (receive_mapping now sid sock NewConnection data st Hs eq_refl).
    unfold dispatch. rewrite Hs. simpl. unfold on_new_connection, get_user.
    destruct (field data "targetUserId") as [| | | |t| |]; try done.
    by rewrite (Habsent t eq_refl).
Qed.

Lemma new_connection_delivery_witness :
  receive 9 1 NewConnection (JObj hello_bob) campus
  = Handled campus
      [Emit 2 "connection_request"
         (assign ∅
            [("from", str (name (sock_user (fresh_socket alice))));
             ("fromId", VObjectId (userId (fresh_socket alice)));
             ("message", VJson (field hello_bob "message"))])].
Proof.
  destruct (new_connection_delivery demo_env 9 1 (fresh_socket alice)
              hello_bob campus) as (Hpresent & _).
  - apply campus_reachable.
  - vm_compute. reflexivity.
  - destruct (Hpresent "b1"
                {| socketId := 2; user := bob; connectedAt := 2;
                   status := None |}) as (_ & _ & Hone).
    + reflexivity.
    + vm_compute. reflexivity.
    + apply Hone. intros s o Hs. each_socket Hs.
Defined.

(** X7: closing one connection of a user hides the user even when another
    connection of the same user stays live: after the close, the other
    connection is still in the namespace, but the registry has no entry for
    the user, so [emitToUser] and [private_message] towards that user send
    nothing. *)
Theorem close_hides_sibling_connection now sid sid' sock sock' st :
  sockets st !! sid = Some sock →
  sockets st !! sid' = Some sock' →
  sid ≠ sid' →
  userId sock = userId sock' →
  let st' := (close now sid st).1 in
  sockets st' !! sid' = Some sock'
  ∧ connectedUsers st' !! userId sock' = None
  ∧ (∀ event data, emitToUser (userId sock') event data st' = [])
  ∧ (∀ now' from data,
       field data "targetUserId" = JStr (userId sock') →
       (dispatch now' from (private_message data) st').2 = []).
Proof.
  intros Hs Hs' Hne Hid st'. subst st'. unfold close. rewrite Hs. simpl.
  rewrite <-Hid.
  assert (Hgone : delete (userId sock) (connectedUsers st) !! userId sock = None)
    by apply lookup_delete_eq.
  split; [by rewrite lookup_delete_ne|]. split; [exact Hgone|]. split.
  - intros event data. unfold emitToUser. simpl. by rewrite Hgone.
  - intros now' from data Hfield. unfold dispatch. simpl.
    destruct (delete sid (sockets st) !! from); [|done]. simpl.
    unfold on_private_message, get_user. rewrite Hfield. simpl.
    by rewrite Hgone.
Qed.

Lemma close_hides_sibling_connection_witness :
  let st := (handshake demo_env 5 4 (JStr "tok-a") campus).1 in
  let st' := (close 9 1 st).1 in
  sockets st' !! 4 = Some (fresh_socket alice)
  ∧ connectedUsers st' !! userId (fresh_socket alice) = None
  ∧ (∀ event data, emitToUser (userId (fresh_socket alice)) event data st' = [])
  ∧ (∀ now' from data,
       field data "targetUserId" = JStr (userId (fresh_socket alice)) →
       (dispatch now' from (private_message data) st').2 = []).
Proof.
  intros st.
  apply (close_hides_sibling_connection 9 1 4 (fresh_socket alice)
           (fresh_socket alice) st).
  - vm_compute. reflexivity.
  - vm_compute. reflexivity.
  - lia.
  - reflexivity.
Defined.

(** ** Explicit room joins *)

Lemma dispatch_join now sid sock (room : string) st :
  sockets st !! sid = Some sock →
  dispatch now sid (join_room room) st = (socket_join sid room st, []).
Proof. intros H. unfold dispatch. by rewrite H. Qed.

Lemma dispatch_leave now sid sock (room : string) st :
  sockets st !! sid = Some sock →
  dispatch now sid (leave_room room) st = (socket_leave sid room st, []).
Proof. intros H. unfold dispatch. by rewrite H. Qed.

Lemma socket_join_lookup sid room st sock :
  sockets st !! sid = Some sock →
  sockets (socket_join sid room st) !! sid
  = Some {| sock_user := sock_user sock;
            sock_rooms := {[room]} ∪ sock_rooms sock;
            sock_own_room := sock_own_room sock;
            sock_id_rooms := sock_id_rooms sock |}.
Proof. intros H. unfold socket_join. simpl. by rewrite lookup_alter_eq, H. Qed.

Lemma socket_leave_lookup sid room st sock :
  sockets st !! sid = Some sock →
  sockets (socket_leave sid room st) !! sid
  = Some {| sock_user := sock_user sock;
            sock_rooms := sock_rooms sock ∖ {[room]};
            sock_own_room := sock_own_room sock;
            sock_id_rooms := sock_id_rooms sock |}.
Proof. intros H. unfold socket_leave. simpl. by rewrite lookup_alter_eq, H. Qed.

Lemma socket_join_other sid room st s :
  sid ≠ s → sockets (socket_join sid room st) !! s = sockets st !! s.
Proof. intros H. unfold socket_join. simpl. by rewrite lookup_alter_ne. Qed.

Lemma socket_leave_other sid room st s :
  sid ≠ s → sockets (socket_leave sid room st) !! s = sockets st !! s.
Proof. intros H. unfold socket_leave. simpl. by rewrite lookup_alter_ne. Qed.






(** X9: joining a question's room subscribes a connection to its answers.
    For a question id [q] that is a string, a safe integer or another value
    whose string conversion is given digit by digit ([printable]): after
    connection [S] has joined the room ["question:" ++ q], a [new_answer]
    for question [q] sent by another connection [C] delivers the stamped
    answer to [S]; after [S] has left that room, the same event delivers
    nothing to [S]. *)
Theorem join_room_subscribes now now' S C ssock csock data st :
  sockets st !! S = Some ssock →
  sockets st !! C = Some csock →
  S ≠ C →
  printable (field data "questionId") = true →
  let room := "question:" +:+ to_str (field data "questionId") in
  let answer :=
    assign (spread data)
      [("author", str (name (sock_user csock)));
       ("authorInitial", str (initials (sock_user csock)));
       ("timestamp", VDate now')] in
  Emit S "new_answer" answer
    ∈ (dispatch now' C (new_answer data)
         (dispatch now S (join_room room) st).1).2
  ∧ S ∉ recipients
          (dispatch now' C (new_answer data)
             (dispatch now S (leave_room room) st).1).2.
Proof.
  intros HS HC Hne _ room answer. subst room answer.
  rewrite (dispatch_join _ _ _ _ _ HS), (dispatch_leave _ _ _ _ _ HS).
  cbn [fst snd].
  pose proof (socket_join_lookup S ("question:" +:+ to_str (field data "questionId"))
                st ssock HS) as Hj.
  pose proof (socket_leave_lookup S ("question:" +:+ to_str (field data "questionId"))
                st ssock HS) as Hl.
  unfold dispatch.
  rewrite (socket_join_other _ _ _ _ Hne), (socket_leave_other _ _ _ _ Hne), HC.
  unfold on_event, on_new_answer, question_room. cbn [fst snd]. split.
  - apply elem_of_socket_to. exists S. split; [done|]. split; [done|].
    apply elem_of_members_named. eexists. split; [exact Hj|]. simpl.
    apply elem_of_union. left. by apply elem_of_singleton.
  - unfold socket_to. rewrite recipients_emit_each.
    intros [_ (o & Ho & Hin)%elem_of_members_named]%list_elem_of_filter.
    rewrite Hl in Ho. injection Ho as <-. simpl in Hin.
    apply elem_of_difference in Hin as [_ Hin].
    apply Hin. by apply elem_of_singleton.
Qed.

Lemma join_room_subscribes_witness :
  Emit 2 "new_answer"
    (assign (spread answer_7)
       [("author", str (name (sock_user (fresh_socket alice))));
        ("authorInitial", str (initials (sock_user (fresh_socket alice))));
        ("timestamp", VDate 9)])
    ∈ (dispatch 9 1 (new_answer answer_7)
         (dispatch 4 2
            (join_room ("question:" +:+ to_str (field answer_7 "questionId")))
            campus).1).2
  ∧ 2 ∉ recipients
          (dispatch 9 1 (new_answer answer_7)
             (dispatch 4 2
                (leave_room
                   ("question:" +:+ to_str (field answer_7 "questionId")))
                campus).1).2.
Proof.
  apply (join_room_subscribes 4 9 2 1 (fresh_socket bob) (fresh_socket alice)
           answer_7 campus).
  - vm_compute. reflexivity.
  - vm_compute. reflexivity.
  - lia.
  - vm_compute. reflexivity.
Defined.

(** ** What an event can change *)

(** X10: an application event never changes who a connection is and never
    touches another connection's socket: after any event from connection
    [sid] the identity attached to every socket is as before; only
    [join_room] and [leave_room] change the socket table at all, and they
    change the sender's entry only. *)
Theorem events_touch_only_sender now sid ev st :
  identities (dispatch now sid ev st).1 = identities st
  ∧ match ev with
    | join_room _ | leave_room _ =>
        ∀ s, s ≠ sid → sockets (dispatch now sid ev st).1 !! s = sockets st !! s
    | _ => sockets (dispatch now sid ev st).1 = sockets st
    end.
Proof.
  unfold dispatch. destruct (sockets st !! sid) as [sock|] eqn:Hs.
  - split; [apply on_event_identities|].
    destruct ev; simpl; try reflexivity.
    + unfold on_new_connection. by destruct (get_user _ _).
    + unfold on_private_message. by destruct (get_user _ _).
    + intros s Hne. apply join_other. congruence.
    + intros s Hne. apply leave_other. congruence.
    + by destruct (connectedUsers st !! userId sock).
  - split; [done|]. by destruct ev.
Qed.

(** ** No packet twice *)

Lemma socket_to_NoDup self r event data st :
  NoDup (socket_to self r event data st).
Proof. apply emit_each_NoDup, NoDup_filter, members_NoDup. Qed.

(** X11: no broadcast writes the same packet twice to a connection. The
    packets produced by one event, by the offline notice of a close, and by
    [emitToUser], [emitToUniversity] and [emitToAll] are pairwise different:
    each recipient gets each emitted event once. *)
Theorem no_packet_twice now sid ev st uid university event data :
  NoDup (dispatch now sid ev st).2
  ∧ NoDup (close now sid st).2
  ∧ NoDup (emitToUser uid event data st)
  ∧ NoDup (emitToUniversity university event data st)
  ∧ NoDup (emitToAll event data st).
Proof.
  split; [|split; [|split; [|split]]].
  - unfold dispatch. destruct (sockets st !! sid) as [sock|];
      [|apply NoDup_nil_2].
    destruct ev; simpl; try apply socket_to_NoDup; try apply NoDup_nil_2.
    + apply NoDup_app. split; [apply socket_to_NoDup|].
      split; [|apply socket_to_NoDup].
      intros e (s1 & -> & _)%elem_of_socket_to (s2 & Heq & _)%elem_of_socket_to.
      discriminate.
    + unfold on_new_connection. destruct (get_user _ _); simpl;
        [apply emit_each_NoDup, members_NoDup|apply NoDup_nil_2].
    + unfold on_private_message. destruct (get_user _ _); simpl;
        [apply emit_each_NoDup, members_NoDup|apply NoDup_nil_2].
  - unfold close. destruct (sockets st !! sid) as [sock|];
      [|apply NoDup_nil_2].
    simpl. apply NoDup_cons. split; [|apply socket_to_NoDup].
    intros (s & Heq & _)%elem_of_socket_to. discriminate.
  - unfold emitToUser. destruct (connectedUsers st !! uid);
      [apply emit_each_NoDup, members_NoDup|apply NoDup_nil_2].
  - apply emit_each_NoDup, members_NoDup.
  - apply emit_each_NoDup, NoDup_fst_map_to_list.
Qed.

(** ** Which tokens the middleware accepts *)

(** X12: the middleware accepts a handshake exactly when the token is a
    non-empty string that [jwt.verify] decodes, the decoded value has a
    readable [userId], and [User.findById] resolves it to a user, which is
    then the identity attached to the socket. A token that is not a string
    is never accepted, whatever it is. *)
Theorem authenticate_accepts_iff env token u :
  authenticate env token = Accept u ↔
  ∃ s decoded uid,
    token = JStr s ∧ s ≠ EmptyString
    ∧ jwt_verify env s = Some decoded
    ∧ prop decoded "userId" = Some uid
    ∧ findById env uid = Found u.
Proof.
  unfold authenticate. split.
  - destruct (truthy token) eqn:Ht; simpl; [|done].
    destruct (verify env token) as [decoded|] eqn:Hv; [|done].
    destruct (prop decoded "userId") as [uid|] eqn:Hp; [|done].
    destruct (findById env uid) as [| |u'] eqn:Hf; try done.
    intros [= <-]. destruct token as [| | | |s| |]; try done.
    exists s, decoded, uid. simpl in *. repeat split; try done.
    intros ->. done.
  - intros (s & decoded & uid & -> & Hs & Hv & Hp & Hf). simpl.
    destruct s as [|c s]; [done|]. simpl. by rewrite Hv, Hp, Hf.
Qed.

(** * The Question model *)

Lemma indexOf_absent x arr : x ∉ arr → indexOf x arr = (-1)%Z.
Proof.
  induction arr as [|y rest IH]; [done|]. intros Hn.
  apply not_elem_of_cons in Hn as [Hne Hn]. simpl.
  rewrite decide_False by done. by rewrite (IH Hn).
Qed.

Lemma indexOf_first x arr :
  x ∈ arr →
  ∃ before after,
    arr = before ++ x :: after ∧ (x ∉ before)
    ∧ indexOf x arr = Z.of_nat (List.length before).
Proof.
  induction arr as [|y rest IH]; [by intros ?%elem_of_nil|].
  intros Hin. simpl. destruct (decide (x = y)) as [<-|Hne].
  - exists [], rest. split; [done|]. split; [apply not_elem_of_nil|done].
  - apply elem_of_cons in Hin as [?|Hin]; [done|].
    destruct (IH Hin) as (before & after & -> & Hb & Hi).
    exists (y :: before), after. split; [done|].
    split; [by apply not_elem_of_cons|].
    rewrite Hi. destruct (Z.ltb_spec (Z.of_nat (List.length before)) 0);
      simpl; lia.
Qed.

Lemma indexOf_pushed x arr :
  x ∉ arr → indexOf x (arr ++ [x]) = Z.of_nat (List.length arr).
Proof.
  induction arr as [|y rest IH]; intros Hn; simpl.
  - by rewrite decide_True.
  - apply not_elem_of_cons in Hn as [Hne Hn].
    rewrite decide_False by done. rewrite (IH Hn).
    destruct (Z.ltb_spec (Z.of_nat (List.length rest)) 0); lia.
Qed.

Lemma includes_spec x arr : includes x arr = true ↔ x ∈ arr.
Proof.
  unfold includes. split.
  - intros H. destruct (decide (x ∈ arr)) as [|Hn]; [done|].
    rewrite (indexOf_absent _ _ Hn) in H. done.
  - intros (before & after & _ & _ & ->)%indexOf_first.
    apply negb_true_iff, Z.eqb_neq. lia.
Qed.

Lemma splice1_at (before after : list string) x :
  splice1 (Z.of_nat (List.length before)) (before ++ x :: after)
  = before ++ after.
Proof.
  unfold splice1. rewrite Nat2Z.id.
  induction before as [|y before IH]; [done|]. simpl. by f_equal.
Qed.

(** X13: a user likes a question at most once. After [addLike] the user is
    among the likes; a second [addLike] by the same user changes nothing and
    does not save; a list of likes without repetition stays without
    repetition; the like count grows by one for a new like and not at all
    for a repeated one; comments and views are untouched. *)
Theorem addLike_once userId q :
  let q1 := (addLike userId q).1 in
  userId ∈ likes q1
  ∧ addLike userId q1 = (q1, false)
  ∧ (NoDup (likes q) → NoDup (likes q1))
  ∧ likeCount q1
    = (if includes userId (likes q) then likeCount q else S (likeCount q))
  ∧ comments q1 = comments q ∧ views q1 = views q.
Proof.
  intros q1. subst q1. unfold addLike, likeCount.
  destruct (includes userId (likes q)) eqn:Hinc; simpl.
  - rewrite Hinc. simpl. apply includes_spec in Hinc. done.
  - assert (Hnot : userId ∉ likes q).
    { intros Hin%includes_spec. congruence. }
    assert (Hnow : userId ∈ likes q ++ [userId]).
    { apply elem_of_app. right. by apply list_elem_of_singleton. }
    split; [exact Hnow|]. split.
    + by rewrite (proj2 (includes_spec _ _) Hnow).
    + split; [|split; [|done]].
      * intros Hnd. apply NoDup_app. split; [done|].
        split; [|apply NoDup_singleton].
        intros x Hx ->%list_elem_of_singleton. done.
      * rewrite length_app. simpl. lia.
Qed.

(** X14: [removeLike] undoes [addLike]: for a user who had not liked the
    question, liking and then unliking gives back the same document. *)
Theorem removeLike_undoes_addLike userId q :
  userId ∉ likes q →
  (removeLike userId (addLike userId q).1).1 = q.
Proof.
  intros Hnot. unfold addLike.
  destruct (includes userId (likes q)) eqn:Hinc;
    [by apply includes_spec in Hinc|].
  simpl. unfold removeLike. simpl.
  pose proof (indexOf_pushed userId (likes q) Hnot) as Hi.
  rewrite Hi. destruct (Z.gtb_spec (Z.of_nat (List.length (likes q))) (-1));
    [|lia].
  simpl. rewrite (splice1_at (likes q) [] userId), app_nil_r.
  by destruct q.
Qed.

Lemma removeLike_undoes_addLike_witness :
  (removeLike "b1"
     (addLike "b1" {| likes := ["a1"]; comments := []; views := 3 |}).1).1
  = {| likes := ["a1"]; comments := []; views := 3 |}.
Proof.
  apply (removeLike_undoes_addLike "b1"
           {| likes := ["a1"]; comments := []; views := 3 |}).
  simpl. rewrite list_elem_of_singleton. discriminate.
Defined.

(** X15: [removeLike] takes out the first occurrence of the user and nothing
    else. For a user who is not among the likes the document is returned as
    it is, without saving. Otherwise exactly one entry goes, the first one
    of that user, and the like count drops by one. Other users' likes are
    never affected, and when the likes had no repetition the user is no
    longer among them. *)
Theorem removeLike_first_occurrence userId q :
  let q1 := (removeLike userId q).1 in
  (userId ∉ likes q → removeLike userId q = (q, false))
  ∧ (userId ∈ likes q →
     (removeLike userId q).2 = true
     ∧ S (likeCount q1) = likeCount q
     ∧ ∃ before after,
         likes q = before ++ userId :: after ∧ (userId ∉ before)
         ∧ likes q1 = before ++ after)
  ∧ (NoDup (likes q) → userId ∉ likes q1)
  ∧ (∀ v, v ≠ userId → v ∈ likes q1 ↔ v ∈ likes q)
  ∧ comments q1 = comments q ∧ views q1 = views q.
Proof.
  intros q1. subst q1. unfold removeLike, likeCount.
  destruct (decide (userId ∈ likes q)) as [Hin|Hnot].
  - destruct (indexOf_first _ _ Hin) as (before & after & Heq & Hb & Hi).
    rewrite Hi.
    destruct (Z.gtb_spec (Z.of_nat (List.length before)) (-1)); [|lia].
    simpl. rewrite Heq, splice1_at.
    split; [by intros Hn; destruct Hn; rewrite <-Heq|].
    split; [|split; [|split; [|done]]].
    + intros _. split; [done|]. split; [|by exists before, after].
      rewrite !length_app. simpl. lia.
    + intros Hnd. apply NoDup_app in Hnd as (_ & Hdis & Hnd).
      apply NoDup_cons in Hnd as [Ha _].
      intros [?|?]%elem_of_app; done.
    + intros v Hv. rewrite !elem_of_app, elem_of_cons. tauto.
  - rewrite (indexOf_absent _ _ Hnot). simpl.
    split; [done|]. split; [done|]. split; [done|]. done.
Qed.

(** X16: answers are counted among the comments. The answer count never
    exceeds the comment count; [addComment] raises the comment count by one,
    and the answer count by one exactly when the new comment is marked as an
    answer; it leaves likes and views alone. *)
Theorem answers_among_comments commentData q :
  let q1 := (addComment commentData q).1 in
  (answerCount q ≤ commentCount q)%nat
  ∧ commentCount q1 = S (commentCount q)
  ∧ answerCount q1
    = (if isAnswer commentData then S (answerCount q) else answerCount q)
  ∧ likes q1 = likes q ∧ views q1 = views q.
Proof.
  intros q1. subst q1. unfold answerCount, commentCount, addComment. simpl.
  split; [apply length_filter|]. split; [rewrite length_app; simpl; lia|].
  split; [|done]. rewrite filter_app, length_app.
  destruct (isAnswer commentData) eqn:Ha.
  - rewrite filter_cons_True by done. simpl. lia.
  - rewrite filter_cons_False by (rewrite Ha; done). simpl. lia.
Qed.

(** * The in-memory server: registration and login *)

Lemma strict_eq_eq a b :
  SimpleServer.strict_eq a b = true → a = b ∧ SimpleServer.primitive a = true.
Proof.
  destruct a, b; simpl; try done.
  - intros H%Bool.eqb_prop. by subst.
  - intros H%Z.eqb_eq. by subst.
  - intros H%String.eqb_eq. by subst.
Qed.

Lemma strict_eq_refl a :
  SimpleServer.primitive a = true → SimpleServer.strict_eq a a = true.
Proof.
  destruct a; simpl; try done; intros _.
  - by destruct b.
  - apply Z.eqb_refl.
  - apply String.eqb_refl.
Qed.

Lemma find_none_app {A} (p : A → bool) (l : list A) (x : A) :
  List.find p l = None → List.find p (l ++ [x]) = List.find p [x].
Proof.
  induction l as [|y l IH]; [done|]. simpl.
  destruct (p y); [done|]. exact IH.
Qed.

Lemma find_none_weaken {A} (p q : A → bool) (l : list A) :
  (∀ x, q x = true → p x = true) →
  List.find p l = None → List.find q l = None.
Proof.
  intros Hpq. induction l as [|y l IH]; [done|]. simpl.
  destruct (p y) eqn:Hp; [done|]. intros H.
  destruct (q y) eqn:Hq; [|by apply IH].
  apply Hpq in Hq. congruence.
Qed.

Lemma register_accepted now reqBody users :
  SimpleServer.code (SimpleServer.register now reqBody users).2 = 200 →
  List.find (fun u => SimpleServer.strict_eq (SimpleServer.email u)
                        (field reqBody "email")) users = None
  ∧ truthy (field reqBody "name") = true
  ∧ truthy (field reqBody "email") = true
  ∧ truthy (field reqBody "password") = true
  ∧ truthy (field reqBody "university") = true
  ∧ SimpleServer.register now reqBody users =
    (users ++ [{| SimpleServer.id := now;
                  SimpleServer.name := field reqBody "name";
                  SimpleServer.email := field reqBody "email";
                  SimpleServer.password := field reqBody "password";
                  SimpleServer.university := field reqBody "university" |}],
     {| SimpleServer.code := 200;
        SimpleServer.body :=
          SimpleServer.obj
            [("message", JStr "Registration successful!");
             ("user",
              SimpleServer.public
                {| SimpleServer.id := now;
                   SimpleServer.name := field reqBody "name";
                   SimpleServer.email := field reqBody "email";
                   SimpleServer.password := field reqBody "password";
                   SimpleServer.university := field reqBody "university" |});
             ("token", SimpleServer.token_for now)] |}).
Proof.
  unfold SimpleServer.register, SimpleServer.find.
  destruct (truthy (field reqBody "name")); [|done].
  destruct (truthy (field reqBody "email")); [|done].
  destruct (truthy (field reqBody "password")); [|done].
  destruct (truthy (field reqBody "university")); [|done].
  simpl. destruct (List.find _ users); [done|]. done.
Qed.

Lemma register_refused now reqBody users :
  SimpleServer.code (SimpleServer.register now reqBody users).2 ≠ 200 →
  (SimpleServer.register now reqBody users).1 = users.
Proof.
  unfold SimpleServer.register, SimpleServer.find.
  destruct (negb _ || _ || _ || _); [done|].
  destruct (List.find _ users); [done|]. simpl. done.
Qed.

(** X17: an account that was just registered can log in. When a
    registration is answered with 200 and its email and password are
    primitive values, a login with the same email and password against the
    new store is answered with 200 and the same body apart from the message:
    the same public account and the same token. *)
Theorem register_then_login now reqBody loginBody users :
  SimpleServer.code (SimpleServer.register now reqBody users).2 = 200 →
  SimpleServer.primitive (field reqBody "email") = true →
  SimpleServer.primitive (field reqBody "password") = true →
  field loginBody "email" = field reqBody "email" →
  field loginBody "password" = field reqBody "password" →
  let users' := (SimpleServer.register now reqBody users).1 in
  let answer := SimpleServer.login loginBody users' in
  SimpleServer.code answer = 200
  ∧ prop (SimpleServer.body answer) "token"
    = prop (SimpleServer.body (SimpleServer.register now reqBody users).2) "token"
  ∧ prop (SimpleServer.body answer) "user"
    = prop (SimpleServer.body (SimpleServer.register now reqBody users).2) "user"
  ∧ prop (SimpleServer.body answer) "token" = Some (SimpleServer.token_for now).
Proof.
  intros Hok He Hp Hle Hlp users' answer. subst users' answer.
  destruct (register_accepted _ _ _ Hok) as (Hfree & _ & _ & _ & _ & ->).
  cbn [fst snd]. unfold SimpleServer.login, SimpleServer.find.
  rewrite Hle, Hlp. rewrite find_none_app.
  - simpl. rewrite (strict_eq_refl _ He), (strict_eq_refl _ Hp). simpl.
    repeat split.
  - apply (find_none_weaken _ _ _ (fun x H => proj1 (andb_prop _ _ H)) Hfree).
Qed.

Lemma register_then_login_witness :
  let users' := (SimpleServer.register 1700 SimpleServer.dana []).1 in
  let answer := SimpleServer.login SimpleServer.dana users' in
  SimpleServer.code answer = 200
  ∧ prop (SimpleServer.body answer) "token"
    = prop (SimpleServer.body
              (SimpleServer.register 1700 SimpleServer.dana []).2) "token"
  ∧ prop (SimpleServer.body answer) "user"
    = prop (SimpleServer.body
              (SimpleServer.register 1700 SimpleServer.dana []).2) "user"
  ∧ prop (SimpleServer.body answer) "token"
    = Some (SimpleServer.token_for 1700).
Proof.
  apply (register_then_login 1700 SimpleServer.dana SimpleServer.dana []);
    reflexivity.
Defined.

Lemma find_all_false {A} (p : A → bool) (l : list A) :
  (∀ x, x ∈ l → p x = false) → List.find p l = None.
Proof.
  induction l as [|y l IH]; [done|]. intros H. simpl.
  rewrite (H y) by left. apply IH. intros x Hx. apply H. by right.
Qed.

Lemma find_none_all {A} (p : A → bool) (l : list A) x :
  List.find p l = None → x ∈ l → p x = false.
Proof.
  intros H Hx. apply list_elem_of_In in Hx. by apply (List.find_none p l).
Qed.

Lemma strict_eq_sym a b :
  SimpleServer.strict_eq a b = true → SimpleServer.strict_eq b a = true.
Proof.
  intros H. destruct (strict_eq_eq _ _ H) as [<- Hp]. by apply strict_eq_refl.
Qed.

Lemma register_keeps_emails_distinct now reqBody users :
  (∀ i j u v, users !! i = Some u → users !! j = Some v →
              SimpleServer.strict_eq (SimpleServer.email u)
                (SimpleServer.email v) = true → i = j) →
  ∀ i j u v,
    (SimpleServer.register now reqBody users).1 !! i = Some u →
    (SimpleServer.register now reqBody users).1 !! j = Some v →
    SimpleServer.strict_eq (SimpleServer.email u) (SimpleServer.email v) = true →
    i = j.
Proof.
  intros Hinv.
  destruct (decide (SimpleServer.code
                      (SimpleServer.register now reqBody users).2 = 200))
    as [Hok|Hno]; [|by rewrite (register_refused _ _ _ Hno)].
  destruct (register_accepted _ _ _ Hok) as (Hfree & _ & _ & _ & _ & ->).
  cbn [fst]. intros i j u v Hi Hj Heq.
  apply lookup_app_Some in Hi as [Hi|[Hil Hi]];
    apply lookup_app_Some in Hj as [Hj|[Hjl Hj]].
  - by apply (Hinv i j u v).
  - apply list_lookup_singleton_Some in Hj as [_ <-]. simpl in Heq.
    apply list_elem_of_lookup_2 in Hi.
    by rewrite (find_none_all _ _ _ Hfree Hi) in Heq.
  - apply list_lookup_singleton_Some in Hi as [_ <-]. simpl in Heq.
    apply strict_eq_sym in Heq. apply list_elem_of_lookup_2 in Hj.
    by rewrite (find_none_all _ _ _ Hfree Hj) in Heq.
  - apply list_lookup_singleton_Some in Hi as [Hi _].
    apply list_lookup_singleton_Some in Hj as [Hj _]. lia.
Qed.

Lemma register_keeps_fields_truthy now reqBody users :
  Forall (fun u => truthy (SimpleServer.name u) = true
                   ∧ truthy (SimpleServer.email u) = true
                   ∧ truthy (SimpleServer.password u) = true
                   ∧ truthy (SimpleServer.university u) = true) users →
  Forall (fun u => truthy (SimpleServer.name u) = true
                   ∧ truthy (SimpleServer.email u) = true
                   ∧ truthy (SimpleServer.password u) = true
                   ∧ truthy (SimpleServer.university u) = true)
    (SimpleServer.register now reqBody users).1.
Proof.
  intros Hinv.
  destruct (decide (SimpleServer.code
                      (SimpleServer.register now reqBody users).2 = 200))
    as [Hok|Hno]; [|by rewrite (register_refused _ _ _ Hno)].
  destruct (register_accepted _ _ _ Hok) as (_ & Hn & He & Hp & Hu & ->).
  cbn [fst]. apply Forall_app. split; [done|]. by apply Forall_singleton.
Qed.

Lemma registrations_keep (P : list SimpleServer.Account → Prop) reqs us :
  (∀ now reqBody us, P us → P (SimpleServer.register now reqBody us).1) →
  P us → P (SimpleServer.registrations reqs us).
Proof.
  intros Hstep. revert us.
  induction reqs as [|[now reqBody] reqs IH]; intros us H; [done|].
  simpl. apply IH. by apply Hstep.
Qed.

(** X18: starting from the empty store, whatever registration requests
    arrive, no two stored accounts have the same email, every stored account
    has a truthy name, email, password and university, and a login that
    names a stored account's email with a password other than the stored one
    is answered with 401. *)
Theorem registered_emails_unique reqs :
  let users := SimpleServer.registrations reqs [] in
  (∀ i j u v, users !! i = Some u → users !! j = Some v →
              SimpleServer.strict_eq (SimpleServer.email u)
                (SimpleServer.email v) = true → i = j)
  ∧ Forall (fun u => truthy (SimpleServer.name u) = true
                     ∧ truthy (SimpleServer.email u) = true
                     ∧ truthy (SimpleServer.password u) = true
                     ∧ truthy (SimpleServer.university u) = true) users
  ∧ (∀ u loginBody,
       u ∈ users →
       SimpleServer.strict_eq (SimpleServer.email u)
         (field loginBody "email") = true →
       SimpleServer.strict_eq (SimpleServer.password u)
         (field loginBody "password") = false →
       SimpleServer.code (SimpleServer.login loginBody users) = 401).
Proof.
  intros users.
  assert (Hinv :
    (∀ i j u v, users !! i = Some u → users !! j = Some v →
                SimpleServer.strict_eq (SimpleServer.email u)
                  (SimpleServer.email v) = true → i = j)
    ∧ Forall (fun u => truthy (SimpleServer.name u) = true
                       ∧ truthy (SimpleServer.email u) = true
                       ∧ truthy (SimpleServer.password u) = true
                       ∧ truthy (SimpleServer.university u) = true) users).
  { subst users.
    apply (registrations_keep
             (fun us =>
                (∀ i j u v, us !! i = Some u → us !! j = Some v →
                            SimpleServer.strict_eq (SimpleServer.email u)
                              (SimpleServer.email v) = true → i = j)
                ∧ Forall (fun u => truthy (SimpleServer.name u) = true
                                   ∧ truthy (SimpleServer.email u) = true
                                   ∧ truthy (SimpleServer.password u) = true
                                   ∧ truthy (SimpleServer.university u) = true)
                    us)).
    - intros now reqBody us [Hd Ht]. split.
      + by apply register_keeps_emails_distinct.
      + by apply register_keeps_fields_truthy.
    - split; [done|constructor]. }
  destruct Hinv as [Hd Ht]. split; [exact Hd|]. split; [exact Ht|].
  intros u loginBody Hu He Hp. unfold SimpleServer.login, SimpleServer.find.
  rewrite find_all_false; [done|].
  intros v Hv. apply andb_false_iff.
  destruct (SimpleServer.strict_eq (SimpleServer.email v)
              (field loginBody "email")) eqn:Hve; [|by left].
  right. assert (v = u) as ->; [|done].
  apply list_elem_of_lookup in Hu as [i Hi].
  apply list_elem_of_lookup in Hv as [j Hj].
  assert (j = i); [|congruence].
  apply (Hd j i v u Hj Hi).
  destruct (strict_eq_eq _ _ Hve) as [-> _]. by apply strict_eq_sym.
Qed.

(** * The [initials] virtual of the User model *)

Lemma upper_idem c : upper (upper c) = upper c.
Proof. destruct c as [[] [] [] [] [] [] [] []]; reflexivity. Qed.

Lemma upper_space c : upper c = " "%char → c = " "%char.
Proof.
  destruct c as [[] [] [] [] [] [] [] []]; vm_compute; intros H;
    first [reflexivity | discriminate H].
Qed.

Lemma chars_append s1 s2 :
  list_ascii_of_string (String.append s1 s2)
  = list_ascii_of_string s1 ++ list_ascii_of_string s2.
Proof. induction s1 as [|c s1 IH]; simpl; [done|]. by rewrite IH. Qed.

Lemma chars_concat_empty parts :
  list_ascii_of_string (String.concat EmptyString parts)
  = List.concat (List.map list_ascii_of_string parts).
Proof.
  induction parts as [|w parts IH]; [done|].
  destruct parts as [|w' parts].
  - simpl. by rewrite app_nil_r.
  - change (String.concat EmptyString (w :: w' :: parts))
      with (String.append w
              (String.append EmptyString
                 (String.concat EmptyString (w' :: parts)))).
    rewrite !chars_append, IH. reflexivity.
Qed.

Lemma chars_toUpperCase s :
  list_ascii_of_string (toUpperCase s)
  = List.map upper (list_ascii_of_string s).
Proof. induction s as [|c s IH]; simpl; [done|]. by rewrite IH. Qed.

Lemma chars_length s :
  String.length s = List.length (list_ascii_of_string s).
Proof. induction s as [|c s IH]; simpl; [done|]. by rewrite IH. Qed.

Lemma chars_inj s1 s2 :
  list_ascii_of_string s1 = list_ascii_of_string s2 → s1 = s2.
Proof.
  intros H. rewrite <-(string_of_list_ascii_of_string s1),
    <-(string_of_list_ascii_of_string s2). by rewrite H.
Qed.

Lemma split_parts_without_sep sep s :
  Forall (fun w => sep ∉ list_ascii_of_string w) (split sep s).
Proof.
  induction s as [|c s IH]; simpl.
  - apply Forall_singleton. apply not_elem_of_nil.
  - destruct (Ascii.eqb_spec c sep) as [->|Hne].
    + apply Forall_cons. split; [apply not_elem_of_nil|done].
    + destruct (split sep s) as [|w ws].
      * apply Forall_singleton. simpl.
        intros [?|?%elem_of_nil]%elem_of_cons; congruence.
      * apply Forall_cons in IH as [Hw Hws]. apply Forall_cons.
        split; [|done]. simpl.
        intros [?|?]%elem_of_cons; [congruence|done].
Qed.

Lemma upper_ascii c :
  (nat_of_ascii c <? 128)%nat = true →
  (nat_of_ascii (upper c) <? 128)%nat = true.
Proof.
  destruct c as [[] [] [] [] [] [] [] []]; vm_compute; intros H;
    first [reflexivity | discriminate H].
Qed.

Lemma split_chars_within sep s w c :
  In w (split sep s) → In c (list_ascii_of_string w) →
  In c (list_ascii_of_string s).
Proof.
  revert w. induction s as [|a s IH]; intros w; simpl.
  - intros [<-|[]]. done.
  - destruct (Ascii.eqb a sep).
    + intros [<-|Hw]; [done|]. intros Hc. right. by apply (IH w).
    + destruct (split sep s) as [|w0 ws].
      * intros [<-|[]]. simpl. intros [->|[]]. by left.
      * intros [<-|Hw]; simpl.
        -- intros [->|Hc]; [by left|]. right. apply (IH w0); [by left|done].
        -- intros Hc. right. apply (IH w); [by right|done].
Qed.

Lemma first_char_chars w :
  list_ascii_of_string (first_char w) = take 1 (list_ascii_of_string w).
Proof. by destruct w. Qed.

(** X19: the initials of a user whose name is made of ASCII characters are
    well-formed. They hold one character per non-empty word of the name
    (words are separated by single spaces, so leading, trailing and doubled
    spaces give empty words that contribute nothing); they contain no
    space; they are ASCII themselves; and they are already upper-cased, so
    upper-casing them again changes nothing. *)
Theorem initials_shape u :
  ascii_only (name u) = true →
  String.length (initials u)
  = List.length (filter (fun w => w ≠ EmptyString) (split " "%char (name u)))
  ∧ (" "%char ∉ list_ascii_of_string (initials u))
  ∧ ascii_only (initials u) = true
  ∧ toUpperCase (initials u) = initials u.
Proof.
  intros Hascii. unfold initials. split; [|split; [|split]].
  - rewrite chars_length, chars_toUpperCase, length_map, chars_concat_empty.
    generalize (split " "%char (name u)) as parts.
    induction parts as [|w parts IH]; [done|]. simpl.
    rewrite length_app, IH, first_char_chars.
    destruct w as [|c w].
    + by rewrite filter_cons_False by (intros H; by apply H).
    + rewrite filter_cons_True by done. simpl. done.
  - rewrite chars_toUpperCase, chars_concat_empty.
    intros Hin%list_elem_of_In%in_map_iff. destruct Hin as (c & Hc & Hin).
    apply upper_space in Hc as ->.
    pose proof (split_parts_without_sep " "%char (name u)) as Hparts.
    revert Hin Hparts. generalize (split " "%char (name u)) as parts.
    induction parts as [|w parts IH]; simpl; [done|].
    intros Hin [Hw Hws]%Forall_cons.
    apply in_app_or in Hin as [Hin|Hin]; [|by apply IH].
    apply Hw. destruct w as [|c w]; [done|]. simpl in Hin.
    destruct Hin as [->|[]]. simpl. left.
  - unfold ascii_only in *. rewrite chars_toUpperCase, chars_concat_empty.
    rewrite forallb_forall in Hascii. apply forallb_forall.
    intros c' Hc'. apply in_map_iff in Hc' as (c & <- & Hin).
    apply upper_ascii, Hascii.
    apply in_concat in Hin as (l & Hl & Hc).
    apply in_map_iff in Hl as (w' & <- & Hw').
    apply in_map_iff in Hw' as (w & <- & Hw).
    apply (split_chars_within " "%char (name u) w c Hw).
    destruct w as [|c0 w]; [done|]. simpl in Hc.
    destruct Hc as [->|[]]. by left.
  - apply chars_inj. rewrite !chars_toUpperCase, List.map_map.
    apply List.map_ext. intros c. apply upper_idem.
Qed.

Lemma initials_shape_witness :
  String.length (initials alice) = 2
  ∧ (" "%char ∉ list_ascii_of_string (initials alice))
  ∧ ascii_only (initials alice) = true
  ∧ toUpperCase (initials alice) = initials alice.
Proof.
  apply (initials_shape alice). vm_compute. reflexivity.
Defined.

(** * What of a payload reaches the recipients *)

(** X20: [new_question] and [new_answer] relay the client's payload as it
    is, apart from the stamped properties: in every relayed packet, each
    property other than [author], [authorInitial], [timestamp] (and
    [university] for a question) has the value it had in the payload, and a
    property the payload did not have is not in the packet. *)
Theorem payload_passes_through now sid data st dest fields k :
  (k ∉ ["author"; "authorInitial"; "university"; "timestamp"] →
   Emit dest "new_question" (VObject fields)
     ∈ (dispatch now sid (new_question data) st).2 →
   fields !! k = VJson <$> data !! k)
  ∧ (k ∉ ["author"; "authorInitial"; "timestamp"] →
     Emit dest "new_answer" (VObject fields)
       ∈ (dispatch now sid (new_answer data) st).2 →
     fields !! k = VJson <$> data !! k).
Proof.
  unfold dispatch.
  destruct (sockets st !! sid) as [sock|];
    [|split; intros _ ?%elem_of_nil; done].
  simpl. split; intros Hk; rewrite !not_elem_of_cons in Hk.
  - destruct Hk as (Ha & Hi & Hu & Ht & _).
    intros [Hin|Hin]%elem_of_app;
      apply elem_of_socket_to in Hin as (s & Heq & _);
      injection Heq as Hto Hf; try discriminate; subst fields.
    rewrite !lookup_insert_ne by done. unfold spread. by rewrite lookup_fmap.
  - destruct Hk as (Ha & Hi & Ht & _).
    intros (s & Heq & _)%elem_of_socket_to.
    injection Heq as Hto Hf. subst fields.
    rewrite !lookup_insert_ne by done. unfold spread. by rewrite lookup_fmap.
Qed.

(** X21: the other payload events read named properties only, and nothing
    else of the payload reaches anyone: two [typing_start] (or [typing_stop])
    payloads with the same [questionId], two [question_liked] payloads with
    the same [questionId] and [likeCount], two [live_chat] payloads with the
    same [sessionId] and [message], and two [new_connection] (or
    [private_message]) payloads with the same [targetUserId] and [message]
    give the same state and the same packets. *)
Theorem only_named_properties_read now sid d1 d2 st :
  (field d1 "questionId" = field d2 "questionId" →
   dispatch now sid (typing_start d1) st = dispatch now sid (typing_start d2) st
   ∧ dispatch now sid (typing_stop d1) st = dispatch now sid (typing_stop d2) st)
  ∧ (field d1 "questionId" = field d2 "questionId" →
     field d1 "likeCount" = field d2 "likeCount" →
     dispatch now sid (question_liked d1) st
     = dispatch now sid (question_liked d2) st)
  ∧ (field d1 "sessionId" = field d2 "sessionId" →
     field d1 "message" = field d2 "message" →
     dispatch now sid (live_chat d1) st = dispatch now sid (live_chat d2) st)
  ∧ (field d1 "targetUserId" = field d2 "targetUserId" →
     field d1 "message" = field d2 "message" →
     dispatch now sid (new_connection d1) st
     = dispatch now sid (new_connection d2) st
     ∧ dispatch now sid (private_message d1) st
       = dispatch now sid (private_message d2) st).
Proof.
  unfold dispatch. destruct (sockets st !! sid) as [sock|]; [|done].
  simpl. split; [|split; [|split]].
  - intros Hq. unfold on_typing_start, on_typing_stop, question_room.
    by rewrite Hq.
  - intros Hq Hl. unfold on_question_liked, question_room. by rewrite Hq, Hl.
  - intros Hsess Hm. unfold on_live_chat. by rewrite Hm, Hsess.
  - intros Ht Hm. unfold on_new_connection, on_private_message.
    by rewrite Hm, Ht.
Qed.

(** * Instances *)

Lemma addLike_once_witness :
  NoDup (likes (addLike "b1" {| likes := ["a1"]; comments := [];
                                views := 0 |}).1)
  ∧ likeCount (addLike "b1" {| likes := ["a1"]; comments := [];
                               views := 0 |}).1 = 2.
Proof.
  destruct (addLike_once "b1" {| likes := ["a1"]; comments := []; views := 0 |})
    as (_ & _ & Hnd & Hcount & _).
  split; [|exact Hcount]. apply Hnd. simpl. apply NoDup_singleton.
Defined.

Lemma removeLike_first_occurrence_witness :
  let q := {| likes := ["a1"; "b1"; "a1"]; comments := []; views := 0 |} in
  let q2 := {| likes := ["a1"; "b1"]; comments := []; views := 0 |} in
  ((removeLike "b1" q).2 = true
   ∧ S (likeCount (removeLike "b1" q).1) = likeCount q
   ∧ ∃ before after,
       likes q = before ++ "b1" :: after ∧ ("b1" ∉ before)
       ∧ likes (removeLike "b1" q).1 = before ++ after)
  ∧ ((removeLike "a1" q).2 = true
     ∧ S (likeCount (removeLike "a1" q).1) = likeCount q
     ∧ ∃ before after,
         likes q = before ++ "a1" :: after ∧ ("a1" ∉ before)
         ∧ likes (removeLike "a1" q).1 = before ++ after)
  ∧ ("b1" ∉ likes (removeLike "b1" q2).1)
  ∧ removeLike "c1" q2 = (q2, false).
Proof.
  intros q q2. split; [|split; [|split]].
  - destruct (removeLike_first_occurrence "b1" q) as (_ & Hpresent & _).
    apply Hpresent. right. left.
  - destruct (removeLike_first_occurrence "a1" q) as (_ & Hpresent & _).
    apply Hpresent. left.
  - destruct (removeLike_first_occurrence "b1" q2) as (_ & _ & Honce & _).
    apply Honce. apply NoDup_cons. split.
    + intros [?|?%elem_of_nil]%elem_of_cons; [discriminate|done].
    + apply NoDup_singleton.
  - destruct (removeLike_first_occurrence "c1" q2) as (Habsent & _).
    apply Habsent. simpl. rewrite !not_elem_of_cons.
    repeat split; first [done | apply not_elem_of_nil].
Defined.

Lemma registered_emails_unique_witness :
  SimpleServer.code
    (SimpleServer.login
       (<["password" := JStr "guess"]> SimpleServer.dana)
       (SimpleServer.registrations [(1700%Z, SimpleServer.dana)] []))
  = 401.
Proof.
  destruct (registered_emails_unique [(1700%Z, SimpleServer.dana)])
    as (_ & _ & Hlogin).
  apply (Hlogin {| SimpleServer.id := 1700;
                   SimpleServer.name := JStr "Dana";
                   SimpleServer.email := JStr "dana@x.edu";
                   SimpleServer.password := JStr "s3cret";
                   SimpleServer.university := JStr "X" |}).
  - vm_compute. left.
  - reflexivity.
  - reflexivity.
Defined.

Lemma payload_passes_through_witness :
  foldl (fun m kv => <[kv.1 := kv.2]> m) (spread answer_7)
    [("author", str "Alice Ng"); ("authorInitial", str "AN");
     ("timestamp", VDate 9)] !! "content"
  = VJson <$> answer_7 !! "content".
Proof.
  destruct (payload_passes_through 9 1 answer_7 campus_watching 2
              (foldl (fun m kv => <[kv.1 := kv.2]> m) (spread answer_7)
                 [("author", str "Alice Ng"); ("authorInitial", str "AN");
                  ("timestamp", VDate 9)]) "content")
    as (_ & Hanswer).
  apply Hanswer.
  - rewrite !not_elem_of_cons.
    repeat split; first [done | apply not_elem_of_nil].
  - vm_compute. left.
Defined.

Lemma only_named_properties_read_witness :
  dispatch 9 1 (typing_start answer_7) campus
  = dispatch 9 1 (typing_start {["questionId" := JNum 7]}) campus.
Proof.
  destruct (only_named_properties_read 9 1 answer_7 {["questionId" := JNum 7]}
              campus) as (Htyping & _).
  apply Htyping. reflexivity.
Defined.

(** * Rooms named by connection ids *)

Lemma step_id_rooms_untouched env now i st :
  names_id_room i = false →
  id_rooms_untouched st → id_rooms_untouched (step env now i st).1.
Proof.
  intros Hi Hinv. destruct i as [sid token|sid ev|sid]; unfold step.
  - destruct (authenticate env token) as [u|msg] eqn:Ha;
      [rewrite (handshake_accept _ _ _ _ _ _ Ha)
      |by rewrite (handshake_reject _ _ _ _ _ _ Ha)].
    unfold connection, socket_join. intros s o. simpl.
    destruct (decide (sid = s)) as [->|Hne].
    + rewrite !lookup_alter_eq, lookup_insert_eq. simpl. by intros [= <-].
    + rewrite !lookup_alter_ne, lookup_insert_ne by done. apply Hinv.
  - unfold dispatch. destruct (sockets st !! sid) as [sock|] eqn:Hs; [|done].
    assert (Hroom : ∀ f : Socket → Socket,
              (∀ x, sock_own_room (f x) = sock_own_room x
                    ∧ sock_id_rooms (f x) = sock_id_rooms x) →
              id_rooms_untouched (set_sockets (alter f sid) st)).
    { intros f Hf s o. simpl. destruct (decide (sid = s)) as [->|Hne].
      - rewrite lookup_alter_eq, Hs. simpl. intros [= <-].
        destruct (Hf sock) as [-> ->]. by apply (Hinv s).
      - rewrite lookup_alter_ne by done. apply Hinv. }
    destruct ev as [| | | | | | | |[owner|room]|[owner|room]| |]; simpl;
      try exact Hinv; try discriminate Hi.
    + unfold on_new_connection. by destruct (get_user _ _).
    + unfold on_private_message. by destruct (get_user _ _).
    + by apply Hroom.
    + by apply Hroom.
    + by destruct (connectedUsers st !! userId sock).
  - unfold close. destruct (sockets st !! sid) as [sock|] eqn:Hs; [|done].
    intros s o. simpl. intros [_ Ho]%lookup_delete_Some. by apply (Hinv s).
Qed.

Lemma run_id_rooms_untouched env trace st :
  Forall (fun ti : Z * Input => names_id_room ti.2 = false) trace →
  id_rooms_untouched st → id_rooms_untouched (run env trace st).
Proof.
  revert st. induction trace as [|[now i] trace IH]; intros st Hall Hinv;
    [done|].
  apply Forall_cons in Hall as [Hi Hall]. simpl. apply IH; [done|].
  by apply step_id_rooms_untouched.
Qed.

Lemma id_rooms_untouched_singleton st owner osock :
  id_rooms_untouched st → sockets st !! owner = Some osock →
  members (Own owner) st = [owner].
Proof.
  intros Hinv Ho. apply (members_own_untouched _ osock); [done|].
  intros s o Hs. destruct (Hinv s o Hs) as [Hown Hids].
  destruct (decide (s = owner)); [done|]. rewrite Hids.
  apply not_elem_of_empty.
Qed.

(** X22: the room named by a connection's id holds that connection alone
    unless a client passes a connection id to [join_room] or [leave_room].
    After any run from the initial state in which no [join_room] or
    [leave_room] names a connection id, every socket is in the room of its
    own id and in no other's, and a [private_message], a [new_connection]
    or an [emitToUser] towards a user of the registry writes exactly one
    packet, to the connection recorded for that user. *)
Theorem id_rooms_singleton_by_default env trace :
  admissible_trace env trace init →
  Forall (fun ti : Z * Input => names_id_room ti.2 = false) trace →
  let st := run env trace init in
  id_rooms_untouched st
  ∧ (∀ owner osock, sockets st !! owner = Some osock →
                    members (Own owner) st = [owner])
  ∧ (∀ uid userData event data,
       connectedUsers st !! uid = Some userData →
       emitToUser uid event data st = [Emit (socketId userData) event data])
  ∧ (∀ now sid sock data t target,
       sockets st !! sid = Some sock →
       field data "targetUserId" = JStr t →
       connectedUsers st !! t = Some target →
       receive now sid PrivateMessage (JObj data) st
       = Handled st
           [Emit (socketId target) "private_message"
              (assign ∅
                 [("from", str (name (sock_user sock)));
                  ("fromId", VObjectId (userId sock));
                  ("message", VJson (field data "message"));
                  ("timestamp", VDate now)])]
       ∧ receive now sid NewConnection (JObj data) st
         = Handled st
             [Emit (socketId target) "connection_request"
                (assign ∅
                   [("from", str (name (sock_user sock)));
                    ("fromId", VObjectId (userId sock));
                    ("message", VJson (field data "message"))])]).
Proof.
  intros Hadm Hall st.
  assert (Hreach : reachable env st)
    by (apply reachable_run; [constructor|done]).
  assert (Hinv : id_rooms_untouched st).
  { apply run_id_rooms_untouched; [done|].
    intros s o. unfold init. simpl. by rewrite lookup_empty. }
  assert (Hone : ∀ k r event data,
            connectedUsers st !! k = Some r →
            io_to (Own (socketId r)) event data st
            = [Emit (socketId r) event data]).
  { intros k r event data Hr.
    destruct (registry_entry_socket st k r
                (reachable_registry_live _ _ Hreach) Hr) as (o & Ho & _).
    unfold io_to. by rewrite (id_rooms_untouched_singleton _ _ _ Hinv Ho). }
  split; [exact Hinv|]. split; [|split].
  - intros owner osock Ho. by apply (id_rooms_untouched_singleton _ _ osock).
  - intros uid userData event data Hu. unfold emitToUser. rewrite Hu.
    by apply (Hone uid).
  - intros now sid sock data t target Hs Hfield Hreg.
    rewrite (receive_mapping now sid sock PrivateMessage data st Hs eq_refl),
      (receive_mapping now sid sock NewConnection data st Hs eq_refl).
    unfold dispatch. rewrite Hs. simpl.
    unfold on_private_message, on_new_connection, get_user.
    rewrite Hfield, Hreg. simpl. by rewrite !(Hone t target).
Qed.

Lemma id_rooms_singleton_by_default_witness :
  members (Own 2) campus = [2]
  ∧ emitToUser "b1" "question_created" (str "q") campus
    = [Emit 2 "question_created" (str "q")].
Proof.
  destruct (id_rooms_singleton_by_default demo_env campus_trace)
    as (_ & Hmembers & Huser & _).
  - vm_compute. tauto.
  - repeat (apply Forall_cons; split; [reflexivity|]). apply Forall_nil_2.
  - split.
    + apply (Hmembers 2 (fresh_socket bob)). vm_compute. reflexivity.
    + apply (Huser "b1" {| socketId := 2; user := bob; connectedAt := 2;
                           status := None |}).
      vm_compute. reflexivity.
Defined.
